(** * The Techkkim service worker (sw.js): caching strategies, routing,
      offline fallback, installation and deferred sync.

    The worker is embedded shallowly.  Strings are byte strings (a
    JavaScript string is taken in its UTF-8 encoding), a cache region is a
    finite map from request URLs to responses, the cache storage is the
    list of named regions in creation order, and asynchronous code runs in
    a state-and-rejection monad over an explicit world. *)

From Stdlib Require Import ZArith String Ascii List Bool Lia.
From stdpp Require Import gmap strings list.

(** ** Strings *)

Module Str.

(** The double-quote character, for the literals that contain it. *)
Definition dq : string := String (ascii_of_nat 34) EmptyString.

(** [String.prototype.startsWith]. *)
Fixpoint startsWith (s t : string) {struct t} : bool :=
  match t with
  | EmptyString => true
  | String c t' =>
      match s with
      | EmptyString => false
      | String d s' => Ascii.eqb c d && startsWith s' t'
      end
  end.

(** [String.prototype.includes]: [t] occurs in [s] at some offset. *)
Fixpoint includes (s t : string) : bool :=
  startsWith s t ||
  match s with
  | EmptyString => false
  | String _ s' => includes s' t
  end.

(** [String.prototype.endsWith]. *)
Fixpoint endsWith (s t : string) : bool :=
  String.eqb s t ||
  match s with
  | EmptyString => false
  | String _ s' => endsWith s' t
  end.

(** ASCII lower-casing, as the platform applies it to header names. *)
Definition lower_ascii (c : ascii) : ascii :=
  let n := nat_of_ascii c in
  if (65 <=? n)%nat && (n <=? 90)%nat then ascii_of_nat (n + 32) else c.

Fixpoint toLowerCase (s : string) : string :=
  match s with
  | EmptyString => EmptyString
  | String c s' => String (lower_ascii c) (toLowerCase s')
  end.

(** Declarative counterparts. *)
Definition is_substring (t s : string) : Prop :=
  exists pre post : string, s = pre +:+ t +:+ post.

Definition is_prefix (t s : string) : Prop :=
  exists post : string, s = t +:+ post.

Definition is_suffix (t s : string) : Prop :=
  exists pre : string, s = pre +:+ t.

End Str.

(** ** Regular expressions

    The fragment of JavaScript regular expressions that sw.js uses:
    alternatives of literal characters, optionally closed by the
    end-of-input assertion [$] (no flag is set, so [$] is the end of the
    whole input and letters match case-sensitively). *)

Module RegExp.

Inductive atom : Type :=
  | Chr (c : ascii)
  | EndOfInput.

Definition sequence : Type := list atom.
Definition regex : Type := list sequence.

Definition lit (s : string) : sequence := map Chr (list_ascii_of_string s).

(** Does the sequence match at the very start of [s]? *)
Fixpoint match_here (p : sequence) (s : string) : bool :=
  match p with
  | [] => true
  | Chr c :: p' =>
      match s with
      | EmptyString => false
      | String d s' => Ascii.eqb c d && match_here p' s'
      end
  | EndOfInput :: p' =>
      match s with
      | EmptyString => match_here p' s
      | String _ _ => false
      end
  end.

(** An unanchored sequence is tried at every offset, the end included. *)
Fixpoint search (p : sequence) (s : string) : bool :=
  match_here p s ||
  match s with
  | EmptyString => false
  | String _ s' => search p s'
  end.

(** [RegExp.prototype.test]. *)
Definition test (r : regex) (s : string) : bool :=
  existsb (fun p => search p s) r.

End RegExp.

(** ** Requests and responses *)

(** The request of a fetch event: sw.js reads [method], [url] and
    [destination]. *)
Record Request : Type := mkRequest {
  method : string;
  url : string;
  destination : string
}.

Record Response : Type := mkResponse {
  status : Z;
  statusText : string;
  headers : list (string * string);
  body : string
}.

(** [Headers.prototype.get]: names compare case-insensitively. *)
Fixpoint header_get (name : string) (hs : list (string * string)) : option string :=
  match hs with
  | [] => None
  | (n, v) :: hs' =>
      if String.eqb (Str.toLowerCase n) (Str.toLowerCase name) then Some v
      else header_get name hs'
  end.

(** [new Response(body, {status, statusText, headers})] with a string body:
    the platform lower-cases the header names and, when the headers name no
    content type, adds the one of a string body. *)
Definition new_Response (b : string) (st : Z) (stText : string)
    (hs : list (string * string)) : Response :=
  let hs' := map (fun '(n, v) => (Str.toLowerCase n, v)) hs in
  {| status := st;
     statusText := stText;
     headers :=
       match header_get "content-type" hs' with
       | Some _ => hs'
       | None => (hs' ++ [("content-type", "text/plain;charset=UTF-8")])%list
       end;
     body := b |}.

(** [response.ok]. *)
Definition ok (r : Response) : bool :=
  (200 <=? status r)%Z && (status r <=? 299)%Z.

(** *** What the cache accepts

    [cache.put] and [cache.addAll] reject, with a TypeError, a request that
    is not a GET over http or https, a response with status 206 and a
    response whose [Vary] header lists [*]. *)

(** The URL, as serialised, has the scheme http or https. *)
Definition http_url (u : string) : bool :=
  Str.startsWith u "http://" || Str.startsWith u "https://".

(** Every value of the headers of that name, in order. *)
Fixpoint header_values (name : string) (hs : list (string * string)) : list string :=
  match hs with
  | [] => []
  | (n, v) :: hs' =>
      if String.eqb (Str.toLowerCase n) (Str.toLowerCase name)
      then v :: header_values name hs'
      else header_values name hs'
  end.

(** The members of a comma-separated field value. *)
Fixpoint split_commas (s : string) : list string :=
  match s with
  | EmptyString => [EmptyString]
  | String c s' =>
      match split_commas s' with
      | [] => [String c EmptyString]
      | member :: members =>
          if Ascii.eqb c (ascii_of_nat 44) then EmptyString :: member :: members
          else String c member :: members
      end
  end.

(** A space or a tab. *)
Definition http_whitespace (c : ascii) : bool :=
  Ascii.eqb c (ascii_of_nat 32) || Ascii.eqb c (ascii_of_nat 9).

Fixpoint trim_start (s : string) : string :=
  match s with
  | EmptyString => EmptyString
  | String c s' => if http_whitespace c then trim_start s' else s
  end.

Fixpoint trim_end (s : string) : string :=
  match s with
  | EmptyString => EmptyString
  | String c s' =>
      match trim_end s' with
      | EmptyString => if http_whitespace c then EmptyString else String c EmptyString
      | rest => String c rest
      end
  end.

(** The [Vary] header of the response lists [*]. *)
Definition vary_star (r : Response) : bool :=
  existsb
    (fun v =>
       existsb (fun member => String.eqb (trim_end (trim_start member)) "*")
         (split_commas v))
    (header_values "vary" (headers r)).

(** The response is one that the cache takes. *)
Definition storable (r : Response) : bool :=
  negb (status r =? 206)%Z && negb (vary_star r).

(** The response is one that [cache.addAll] takes: [ok] besides. *)
Definition addable (r : Response) : bool :=
  ok r && storable r.

(** No string occurs twice. *)
Fixpoint distinct (l : list string) : bool :=
  match l with
  | [] => true
  | x :: l' => negb (existsb (String.eqb x) l') && distinct l'
  end.

(** ** Configuration (sw.js:4-28) *)

Definition CACHE_NAME : string := "techkkim-enhanced-v1.0".
Definition STATIC_CACHE : string := "techkkim-static-v1.0".
Definition DYNAMIC_CACHE : string := "techkkim-dynamic-v1.0".

Definition STATIC_ASSETS : list string :=
  [ "/";
    "/enhanced-techkkim.html";
    "/manifest.json";
    "https://cdn.tailwindcss.com";
    "https://storage.googleapis.com/workspace-0f70711f-8b4e-4d94-86f1-2a93ccde5887/image/2a4f375f-04f9-4560-a36d-b544a9f1d6e4.png";
    "https://storage.googleapis.com/workspace-0f70711f-8b4e-4d94-86f1-2a93ccde5887/image/3eb146d2-9782-4e05-91aa-79f4f2370c19.png";
    "https://storage.googleapis.com/workspace-0f70711f-8b4e-4d94-86f1-2a93ccde5887/image/95f6e6d0-426a-4d52-8213-ab0a6ba2def0.png";
    "https://storage.googleapis.com/workspace-0f70711f-8b4e-4d94-86f1-2a93ccde5887/image/0300a514-6c23-471e-b3b0-58218d3f7379.png";
    "https://storage.googleapis.com/workspace-0f70711f-8b4e-4d94-86f1-2a93ccde5887/image/13a22ef9-e9d3-4399-b008-405cacdb8ac7.png" ].

Import RegExp.

Definition DYNAMIC_PATTERNS : list regex :=
  [ [lit "/api/"];
    [lit "/monastery/"];
    [lit "/archives/"];
    [ (lit ".jpg" ++ [EndOfInput])%list; (lit ".png" ++ [EndOfInput])%list;
      (lit ".webp" ++ [EndOfInput])%list; (lit ".gif" ++ [EndOfInput])%list ] ].

(** ** Offline fallback (sw.js:159-254) *)

Import Str.

(** The body of the offline document: the template literal of sw.js:164-222,
    white space included. *)
Definition offline_page : string :=
  "
      <!DOCTYPE html>
      <html>
        <head>
          <title>Techkkim - Offline</title>
          <style>
            body { 
              font-family: Arial, sans-serif; 
              text-align: center; 
              padding: 50px; 
              background: linear-gradient(135deg, #800000, #FFC107);
              color: white;
              min-height: 100vh;
              margin: 0;
              display: flex;
              flex-direction: column;
              justify-content: center;
              align-items: center;
            }
            .offline-container {
              background: rgba(255, 255, 255, 0.1);
              padding: 40px;
              border-radius: 20px;
              box-shadow: 0 10px 30px rgba(0, 0, 0, 0.3);
              backdrop-filter: blur(10px);
            }
            h1 { font-size: 2.5rem; margin-bottom: 1rem; }
            p { font-size: 1.2rem; margin-bottom: 2rem; }
            .monastery-icon { font-size: 4rem; margin-bottom: 2rem; }
            .retry-btn {
              background: #FFC107;
              color: #800000;
              border: none;
              padding: 15px 30px;
              border-radius: 25px;
              font-size: 1.1rem;
              font-weight: bold;
              cursor: pointer;
              transition: all 0.3s ease;
            }
            .retry-btn:hover {
              background: #FFD54F;
              transform: scale(1.05);
            }
          </style>
        </head>
        <body>
          <div class=" +:+ dq +:+ "offline-container" +:+ dq +:+ ">
            <div class=" +:+ dq +:+ "monastery-icon" +:+ dq +:+ ">🏔️</div>
            <h1>Techkkim Offline Mode</h1>
            <p>You're currently offline, but you can still explore cached monastery content!</p>
            <p>🤖 AI features, 📱 AR mode, and 🔴 live streaming require internet connection.</p>
            <button class=" +:+ dq +:+ "retry-btn" +:+ dq +:+ " onclick=" +:+ dq +:+ "window.location.reload()" +:+ dq +:+ ">
              🔄 Try Again
            </button>
          </div>
        </body>
      </html>
    ".

(** The body of the offline image: the template literal of sw.js:230-243,
    white space included. *)
Definition offline_image : string :=
  "
      <svg width=" +:+ dq +:+ "400" +:+ dq +:+ " height=" +:+ dq +:+ "300" +:+ dq +:+ " xmlns=" +:+ dq +:+ "http://www.w3.org/2000/svg" +:+ dq +:+ ">
        <rect width=" +:+ dq +:+ "400" +:+ dq +:+ " height=" +:+ dq +:+ "300" +:+ dq +:+ " fill=" +:+ dq +:+ "#800000" +:+ dq +:+ "/>
        <text x=" +:+ dq +:+ "200" +:+ dq +:+ " y=" +:+ dq +:+ "130" +:+ dq +:+ " text-anchor=" +:+ dq +:+ "middle" +:+ dq +:+ " fill=" +:+ dq +:+ "#FFC107" +:+ dq +:+ " font-size=" +:+ dq +:+ "20" +:+ dq +:+ " font-family=" +:+ dq +:+ "Arial" +:+ dq +:+ ">
          🏔️ Monastery Image
        </text>
        <text x=" +:+ dq +:+ "200" +:+ dq +:+ " y=" +:+ dq +:+ "160" +:+ dq +:+ " text-anchor=" +:+ dq +:+ "middle" +:+ dq +:+ " fill=" +:+ dq +:+ "white" +:+ dq +:+ " font-size=" +:+ dq +:+ "16" +:+ dq +:+ " font-family=" +:+ dq +:+ "Arial" +:+ dq +:+ ">
          Available offline soon
        </text>
        <text x=" +:+ dq +:+ "200" +:+ dq +:+ " y=" +:+ dq +:+ "190" +:+ dq +:+ " text-anchor=" +:+ dq +:+ "middle" +:+ dq +:+ " fill=" +:+ dq +:+ "white" +:+ dq +:+ " font-size=" +:+ dq +:+ "14" +:+ dq +:+ " font-family=" +:+ dq +:+ "Arial" +:+ dq +:+ ">
          Techkkim Enhanced
        </text>
      </svg>
    ".

Definition getOfflineFallback (request : Request) : Response :=
  if String.eqb (destination request) "document" then
    new_Response offline_page 200 "OK" [("Content-Type", "text/html")]
  else if String.eqb (destination request) "image" then
    new_Response offline_image 200 "OK" [("Content-Type", "image/svg+xml")]
  else
    new_Response "Offline - Content not available" 503 "Service Unavailable" [].



Definition offline_unavailable : Response :=
  new_Response "Offline - Content not available" 503 "Service Unavailable" [].

(** ** The cache storage

    A region maps the URL of a GET request to the response stored for it
    (the listener hands only GET requests to the strategies, so the URL is
    the whole key); the storage lists the regions by name, in the order of
    creation, which is the order in which [caches.match] consults them. *)

Abbreviation Cache := (gmap string Response).

Definition CacheStorage : Type := list (string * Cache).

Fixpoint region (name : string) (cs : CacheStorage) : option Cache :=
  match cs with
  | [] => None
  | (n, c) :: cs' => if String.eqb n name then Some c else region name cs'
  end.

(** [caches.open(name)]: the region is created, empty, when absent. *)
Definition open_region (name : string) (cs : CacheStorage) : CacheStorage :=
  match region name cs with
  | Some _ => cs
  | None => (cs ++ [(name, ∅)])%list
  end.

(** [cache.match(request)] on the region [name]. *)
Definition match_in (name u : string) (cs : CacheStorage) : option Response :=
  match region name cs with
  | Some c => c !! u
  | None => None
  end.

(** [caches.match(request)]: the first region, in creation order, that
    holds an entry. *)
Fixpoint match_all (u : string) (cs : CacheStorage) : option Response :=
  match cs with
  | [] => None
  | (_, c) :: cs' =>
      match c !! u with
      | Some r => Some r
      | None => match_all u cs'
      end
  end.

(** [cache.put(request, response)] on the region [name]. *)
Fixpoint put_in (name u : string) (r : Response) (cs : CacheStorage) : CacheStorage :=
  match cs with
  | [] => []
  | (n, c) :: cs' =>
      if String.eqb n name then (n, <[u := r]> c) :: cs'
      else (n, c) :: put_in name u r cs'
  end.

(** ** The world of the worker *)

(** What [fetch] puts on the wire. *)
Record NetRequest : Type := mkNetRequest {
  rq_method : string;
  rq_url : string;
  rq_headers : list (string * string);
  rq_body : string
}.

(** The message of sw.js:289-292, [{type, data: {synced}}]. *)
Record Message : Type := mkMessage {
  type : string;
  synced : nat
}.

Record World : Type := mkWorld {
  caches : CacheStorage;
  sent : list NetRequest;              (* requests whose fetch has settled, oldest first *)
  controlled : list string;            (* the client contexts under control *)
  posted : list (string * Message);    (* messages posted, oldest first *)
  skippedWaiting : bool
}.

Definition set_caches (f : CacheStorage -> CacheStorage) (w : World) : World :=
  mkWorld (f (caches w)) (sent w) (controlled w) (posted w) (skippedWaiting w).

Definition log_sent (rq : NetRequest) (w : World) : World :=
  mkWorld (caches w) (sent w ++ [rq]) (controlled w) (posted w) (skippedWaiting w).

Definition log_posted (c : string) (m : Message) (w : World) : World :=
  mkWorld (caches w) (sent w) (controlled w) (posted w ++ [(c, m)]) (skippedWaiting w).

Definition set_skippedWaiting (w : World) : World :=
  mkWorld (caches w) (sent w) (controlled w) (posted w) true.

(** ** Promises: a state-and-rejection monad *)

Inductive Error : Type :=
  | NetworkError      (* [fetch] could not reach the server *)
  | BadResponse       (* the cache refuses the request or the response *)
  | InvalidState.     (* [cache.addAll] was given the same request twice *)

Inductive Settled (A : Type) : Type :=
  | Fulfilled (a : A)
  | Rejected (e : Error).

Arguments Fulfilled {A} a.
Arguments Rejected {A} e.

Definition Async (A : Type) : Type := World -> Settled A * World.

#[export] Instance Async_ret : MRet Async :=
  fun A a w => (Fulfilled a, w).

#[export] Instance Async_bind : MBind Async :=
  fun A B f m w =>
    match m w with
    | (Fulfilled a, w') => f a w'
    | (Rejected e, w') => (Rejected e, w')
    end.

Definition throw {A : Type} (e : Error) : Async A :=
  fun w => (Rejected e, w).

(** [try { m } catch (error) { h error }], also [m.catch(h)]. *)
Definition try_catch {A : Type} (m : Async A) (h : Error -> Async A) : Async A :=
  fun w =>
    match m w with
    | (Fulfilled a, w') => (Fulfilled a, w')
    | (Rejected e, w') => h e w'
    end.

(** A promise that nobody awaits: its effects happen, its value and its
    rejection are dropped. *)
Definition detach {A : Type} (m : Async A) : Async unit :=
  fun w => (Fulfilled tt, snd (m w)).

(** [for (const x of l) { await body x }]. *)
Fixpoint for_of {A : Type} (l : list A) (body : A -> Async unit) : Async unit :=
  match l with
  | [] => mret tt
  | x :: l' => body x ;; for_of l' body
  end.

Definition caches_open (name : string) : Async string :=
  fun w => (Fulfilled name, set_caches (open_region name) w).

Definition caches_match (request : Request) : Async (option Response) :=
  fun w => (Fulfilled (match_all (url request) (caches w)), w).

Definition cache_match (cache : string) (request : Request) : Async (option Response) :=
  fun w => (Fulfilled (match_in cache (url request) (caches w)), w).

(** Whether [cache.put(request, response)] takes the pair. *)
Definition put_accepts (request : Request) (r : Response) : bool :=
  String.eqb (method request) "GET" && http_url (url request) && storable r.

(** [cache.put(request, response)]: the promise rejects, and nothing is
    stored, when the cache does not take the pair.  The storage is taken
    to have room: no put is refused for lack of quota. *)
Definition cache_put (cache : string) (request : Request) (r : Response) : Async unit :=
  fun w =>
    if put_accepts request r
    then (Fulfilled tt, set_caches (put_in cache (url request) r) w)
    else (Rejected BadResponse, w).

Definition skipWaiting : Async unit :=
  fun w => (Fulfilled tt, set_skippedWaiting w).

Definition clients_matchAll : Async (list string) :=
  fun w => (Fulfilled (controlled w), w).

Definition postMessage (client : string) (m : Message) : Async unit :=
  fun w => (Fulfilled tt, log_posted client m w).

(** ** The worker *)

Inductive Strategy : Type :=
  | CacheFirst
  | NetworkFirst
  | StaleWhileRevalidate.

(** What an [async] function that returns [value || promise] hands back:
    either a value at once, the promise being left to run on its own, or
    the promise itself, which the caller then waits for. *)
Inductive Reply : Type :=
  | Now (r : Response) (background : Async (option Response))
  | Later (p : Async (option Response)).

Section Worker.

(** The platform: the origin that [new URL(u).origin] computes, the origin
    of the worker ([location.origin]), the resolution of a URL against the
    worker's location, and the network, which answers the [n]-th request
    of the worker with a response or fails it ([None]). *)
Variable origin_of : string -> string.
Variable location_origin : string.
Variable resolveURL : string -> string.
Variable net : nat -> NetRequest -> option Response.

(** The queued items of the deferred sync and [JSON.stringify] on them. *)
Variable Item : Type.
Variable JSON_stringify : Item -> string.

(** [fetch], from the request to its settlement: the promise rejects only
    when the network fails; a response of any status fulfils it. *)
Definition fetch (rq : NetRequest) : Async Response :=
  fun w =>
    match net (length (sent w)) rq with
    | Some r => (Fulfilled r, log_sent rq w)
    | None => (Rejected NetworkError, log_sent rq w)
    end.

(** [fetch(request)] for the request of a fetch event. *)
Definition of_request (request : Request) : NetRequest :=
  mkNetRequest (method request) (url request) [] EmptyString.

(** [fetch(u, {method: 'POST', headers, body})] for a URL string. *)
Definition post_json (u b : string) : NetRequest :=
  mkNetRequest "POST" (resolveURL u) [("Content-Type", "application/json")] b.

(** [cache.addAll(urls)]: the promise rejects at once when a URL is not
    one of http or https; else every URL is fetched, and the promise
    rejects when a fetch fails, when a response is not [ok], has status
    206 or varies on [*], and when two of the URLs are the same; in each
    of these cases nothing is stored.  Otherwise every response is stored
    under its URL.  (The platform issues the fetches together; here they
    are issued in list order and stop at the first failure.) *)
Definition fetch_ok (u : string) : Async (string * Response) :=
  r ← fetch (mkNetRequest "GET" (resolveURL u) [] EmptyString);
  if addable r then mret (resolveURL u, r) else throw BadResponse.

Definition put_all (cache : string) (rs : list (string * Response)) : Async unit :=
  fun w =>
    (Fulfilled tt,
     set_caches (fun cs => fold_left (fun cs' '(u, r) => put_in cache u r cs') rs cs) w).

Definition put_all_distinct (cache : string) (rs : list (string * Response))
  : Async unit :=
  if distinct (map fst rs) then put_all cache rs else throw InvalidState.

Definition cache_addAll (cache : string) (urls : list string) : Async unit :=
  if forallb (fun u => http_url (resolveURL u)) urls then
    rs ← mapM fetch_ok urls;
    put_all_distinct cache rs
  else throw BadResponse.

(** *** Install (sw.js:31-48): the promise handed to [event.waitUntil]. *)
Definition install : Async unit :=
  try_catch
    (cache ← caches_open STATIC_CACHE;
     cache_addAll cache STATIC_ASSETS;;
     skipWaiting)
    (fun error => mret tt).

(** *** Strategies (sw.js:100-156) *)

Definition cacheFirstStrategy (request : Request) : Async Response :=
  try_catch
    (cachedResponse ← caches_match request;
     match cachedResponse with
     | Some r => mret r
     | None =>
         networkResponse ← fetch (of_request request);
         (if (status networkResponse =? 200)%Z then
            cache ← caches_open STATIC_CACHE;
            detach (cache_put cache request networkResponse)
          else mret tt);;
         mret networkResponse
     end)
    (fun error => mret (getOfflineFallback request)).

Definition networkFirstStrategy (request : Request) : Async Response :=
  try_catch
    (networkResponse ← fetch (of_request request);
     (if (status networkResponse =? 200)%Z then
        cache ← caches_open DYNAMIC_CACHE;
        detach (cache_put cache request networkResponse)
      else mret tt);;
     mret networkResponse)
    (fun error =>
       cachedResponse ← caches_match request;
       mret (match cachedResponse with
             | Some r => r
             | None => getOfflineFallback request
             end)).

Definition staleWhileRevalidateStrategy (request : Request) : Async Reply :=
  cache ← caches_open DYNAMIC_CACHE;
  cachedResponse ← cache_match cache request;
  let networkResponsePromise : Async (option Response) :=
    try_catch
      (response ← fetch (of_request request);
       (if (status response =? 200)%Z then
          detach (cache_put cache request response)
        else mret tt);;
       mret (Some response))
      (fun _ => mret cachedResponse) in
  mret (match cachedResponse with
        | Some r => Now r networkResponsePromise
        | None => Later networkResponsePromise
        end).

(** The promise handed to [event.respondWith] settles as the reply says. *)
Definition settle (reply : Reply) : Async (option Response) :=
  match reply with
  | Now r background => detach background;; mret (Some r)
  | Later p => p
  end.

(** *** The fetch listener (sw.js:74-97) *)

Definition route (request : Request) : option Strategy :=
  if negb (String.eqb (method request) "GET") then None
  else if String.eqb (origin_of (url request)) location_origin then
    Some CacheFirst
  else if existsb (fun asset => includes (url request) asset) STATIC_ASSETS then
    Some CacheFirst
  else if existsb (fun pattern => test pattern (url request)) DYNAMIC_PATTERNS then
    Some NetworkFirst
  else
    Some StaleWhileRevalidate.

Definition respondWith (request : Request) (s : Strategy) : Async (option Response) :=
  match s with
  | CacheFirst => r ← cacheFirstStrategy request; mret (Some r)
  | NetworkFirst => r ← networkFirstStrategy request; mret (Some r)
  | StaleWhileRevalidate => reply ← staleWhileRevalidateStrategy request; settle reply
  end.

(** [None]: the listener returns without calling [event.respondWith]. *)
Definition onfetch (request : Request) : option (Async (option Response)) :=
  option_map (respondWith request) (route request).

(** *** Deferred sync (sw.js:257-322, 396-404) *)

Definition getPendingVisits : Async (list Item) := mret [].

Definition getPendingChatMessages : Async (list Item) := mret [].

(** [syncMonasteryData], the source of the pending visits made explicit. *)
Definition syncMonasteryData_from (pending : Async (list Item)) : Async unit :=
  try_catch
    (pendingVisits ← pending;
     for_of pendingVisits (fun visit =>
       fetch (post_json "/api/monastery-visits" (JSON_stringify visit));; mret tt);;
     detach (clients ← clients_matchAll;
             for_of clients (fun client =>
               postMessage client (mkMessage "SYNC_COMPLETE" (length pendingVisits)))))
    (fun error => mret tt).

Definition syncMonasteryData : Async unit :=
  syncMonasteryData_from getPendingVisits.

(** [syncChatMessages], the source of the pending messages made explicit. *)
Definition syncChatMessages_from (pending : Async (list Item)) : Async unit :=
  try_catch
    (pendingMessages ← pending;
     for_of pendingMessages (fun message =>
       fetch (post_json "/api/chat-messages" (JSON_stringify message));; mret tt))
    (fun error => mret tt).

Definition syncChatMessages : Async unit :=
  syncChatMessages_from getPendingChatMessages.

(** The sync listener; [None]: no [event.waitUntil]. *)
Definition onsync (tag : string) : option (Async unit) :=
  if String.eqb tag "background-monastery-sync" then Some syncMonasteryData
  else if String.eqb tag "background-chat-sync" then Some syncChatMessages
  else None.

End Worker.

(** ** Concrete platforms, for the examples *)

Module Fixture.

Definition origin : string := "https://techkkim.example".

(** The origin of an absolute URL: everything before the first [/] that
    follows [://]. *)
Definition origin_of (u : string) : string :=
  match String.index 0 "://" u with
  | Some i =>
      match String.index (i + 3) "/" u with
      | Some j => String.substring 0 j u
      | None => u
      end
  | None => u
  end.

Definition resolveURL (u : string) : string :=
  if startsWith u "/" then origin +:+ u else u.

Definition offline : nat -> NetRequest -> option Response :=
  fun _ _ => None.

Definition answering (r : Response) : nat -> NetRequest -> option Response :=
  fun _ _ => Some r.

Definition page (st : Z) (b : string) : Response :=
  mkResponse st EmptyString [("content-type", "text/plain")] b.

Definition fresh : World := mkWorld [] [] [] [] false.

Definition get (u dest : string) : Request := mkRequest "GET" u dest.

(** A network that answers every request but its second. *)
Definition second_fails (r : Response) : nat -> NetRequest -> option Response :=
  fun n _ => if (n =? 1)%nat then None else Some r.

(** A network that answers every request, its second with a 500. *)
Definition second_refused (r : Response) : nat -> NetRequest -> option Response :=
  fun n _ => if (n =? 1)%nat then Some (page 500 "refused") else Some r.

Definition lib : string := "https://cdn.example.org/lib.js".

(** A response that varies on everything. *)
Definition varying (st : Z) (b : string) : Response :=
  mkResponse st EmptyString [("content-type", "text/plain"); ("Vary", "*")] b.

(** The static region holds a copy of [lib], the dynamic region is empty. *)
Definition stocked : World :=
  mkWorld [(STATIC_CACHE, {[ lib := page 200 "old" ]}); (DYNAMIC_CACHE, ∅)]
    [] ["client-1"] [] false.

(** The dynamic region holds a copy of [lib]. *)
Definition warm : World :=
  mkWorld [(STATIC_CACHE, ∅); (DYNAMIC_CACHE, {[ lib := page 200 "stale" ]})]
    [] ["client-1"] [] false.

End Fixture.

(** ** The routing rules, as the specification words them *)

(** The URL contains a member of the static-asset allowlist. *)
Definition in_allowlist (u : string) : Prop :=
  exists asset : string, In asset STATIC_ASSETS /\ is_substring asset u.

(** The URL matches a dynamic-content pattern: the API path, a content
    path, or an image-file extension at the very end, in lower case. *)
Definition dynamic_content (u : string) : Prop :=
  is_substring "/api/" u \/
  is_substring "/monastery/" u \/ is_substring "/archives/" u \/
  is_suffix ".jpg" u \/ is_suffix ".png" u \/
  is_suffix ".webp" u \/ is_suffix ".gif" u.

Inductive Dispatch (origin_of : string -> string) (location_origin : string)
    (request : Request) : option Strategy -> Prop :=
  | Dispatch_pass :
      method request <> "GET" ->
      Dispatch origin_of location_origin request None
  | Dispatch_same_origin :
      method request = "GET" ->
      origin_of (url request) = location_origin ->
      Dispatch origin_of location_origin request (Some CacheFirst)
  | Dispatch_static_asset :
      method request = "GET" ->
      origin_of (url request) <> location_origin ->
      in_allowlist (url request) ->
      Dispatch origin_of location_origin request (Some CacheFirst)
  | Dispatch_dynamic :
      method request = "GET" ->
      origin_of (url request) <> location_origin ->
      ~ in_allowlist (url request) ->
      dynamic_content (url request) ->
      Dispatch origin_of location_origin request (Some NetworkFirst)
  | Dispatch_other :
      method request = "GET" ->
      origin_of (url request) <> location_origin ->
      ~ in_allowlist (url request) ->
      ~ dynamic_content (url request) ->
      Dispatch origin_of location_origin request (Some StaleWhileRevalidate).

(** ** What [event.respondWith] is given *)

(** The promise of a strategy that returns a response: [respondWith] gets
    the response that the strategy settles with. *)
Definition responded (settled : Settled Response * World)
  : Settled (option Response) * World :=
  match settled with
  | (Fulfilled r, w) => (Fulfilled (Some r), w)
  | (Rejected e, w) => (Rejected e, w)
  end.

(** The promise of a strategy that returns a value or a promise:
    [respondWith] gets the value, the promise running on, or whatever the
    promise settles with. *)
Definition replied (settled : Settled Reply * World)
  : Settled (option Response) * World :=
  match settled with
  | (Fulfilled (Now r background), w) => (Fulfilled (Some r), snd (background w))
  | (Fulfilled (Later p), w) => p w
  | (Rejected e, w) => (Rejected e, w)
  end.

(** ** What the offline bodies are *)



(** ** Where a URL is cached *)

(** [r] is the entry for [u] of the first region, in creation order, that
    has one. *)
Definition first_entry (u : string) (cs : CacheStorage) (r : Response) : Prop :=
  exists (pre : CacheStorage) (name : string) (c : Cache) (post : CacheStorage),
    cs = (pre ++ (name, c) :: post)%list /\
    (forall n d, In (n, d) pre -> d !! u = None) /\
    c !! u = Some r.

(** No region has an entry for [u]. *)
Definition no_entry (u : string) (cs : CacheStorage) : Prop :=
  forall n d, In (n, d) cs -> d !! u = None.

(** ** What the cache takes, said without the computation *)

(** The URL is one of http or https. *)
Definition http_or_https (u : string) : Prop :=
  is_prefix "http://" u \/ is_prefix "https://" u.

(** The strings [ms] joined by commas. *)
Fixpoint join_commas (ms : list string) : string :=
  match ms with
  | [] => EmptyString
  | m :: ms' =>
      match ms' with
      | [] => m
      | _ :: _ => m +:+ String (ascii_of_nat 44) (join_commas ms')
      end
  end.

(** There is no comma in the string. *)
Definition comma_free (s : string) : Prop :=
  ~ In (ascii_of_nat 44) (list_ascii_of_string s).

(** [member] is one of the comma-separated members of the field value. *)
Definition field_member (member value : string) : Prop :=
  exists ms : list string,
    (forall m, In m ms -> comma_free m) /\
    value = join_commas ms /\
    In member ms.

(** The string is made of spaces and tabs. *)
Definition blank (s : string) : Prop :=
  forall c, In c (list_ascii_of_string s) ->
    c = ascii_of_nat 32 \/ c = ascii_of_nat 9.

(** A [Vary] header of the response has [*] among its members. *)
Definition varies_on_star (r : Response) : Prop :=
  exists (name value member l t : string),
    In (name, value) (headers r) /\
    toLowerCase name = "vary" /\
    field_member member value /\
    blank l /\ blank t /\ member = l +:+ "*" +:+ t.

(** [cache.put(request, r)] takes the pair. *)
Definition cache_takes (request : Request) (r : Response) : Prop :=
  method request = "GET" /\
  http_or_https (url request) /\
  status r <> 206%Z /\
  ~ varies_on_star r.

(** [cache.addAll] takes the response. *)
Definition addAll_takes (r : Response) : Prop :=
  (200 <= status r <= 299)%Z /\
  status r <> 206%Z /\
  ~ varies_on_star r.

(** A strategy that got [r] from the network for the request stores it:
    the status is 200 and the cache takes the pair. *)
Definition stores (request : Request) (r : Response) : Prop :=
  status r = 200%Z /\ cache_takes request r.

(** The same, computed. *)
Definition cacheable (request : Request) (r : Response) : bool :=
  (status r =? 200)%Z && put_accepts request r.


(** ** The two queues of the deferred sync *)

Inductive Queue : Type :=
  | Visits
  | ChatMessages.

Definition endpoint (q : Queue) : string :=
  match q with
  | Visits => "/api/monastery-visits"
  | ChatMessages => "/api/chat-messages"
  end.

Definition sync_tag (q : Queue) : string :=
  match q with
  | Visits => "background-monastery-sync"
  | ChatMessages => "background-chat-sync"
  end.

(** The sync function of a queue, run on the given pending items. *)
Definition sync_from (resolveURL : string -> string)
    (net : nat -> NetRequest -> option Response)
    (Item : Type) (JSON_stringify : Item -> string)
    (q : Queue) (items : list Item) : Async unit :=
  match q with
  | Visits =>
      syncMonasteryData_from resolveURL net Item JSON_stringify (mret items)
  | ChatMessages =>
      syncChatMessages_from resolveURL net Item JSON_stringify (mret items)
  end.

(** ** What a bulk population meets on the network *)

(** Every URL of the list, fetched in its turn from the [n]-th request on,
    is answered with a response that [cache.addAll] takes. *)
Definition answered_addable (resolveURL : string -> string)
    (net : nat -> NetRequest -> option Response)
    (n : nat) (urls : list string) : Prop :=
  forall (i : nat) (u : string),
    urls !! i = Some u ->
    exists r : Response,
      net (n + i) (mkNetRequest "GET" (resolveURL u) [] EmptyString) = Some r /\
      addAll_takes r.

(** A bulk population of the URLs goes through: they are URLs of http or
    https, no two are the same, and each is answered with a response that
    [cache.addAll] takes. *)
Definition addAll_succeeds (resolveURL : string -> string)
    (net : nat -> NetRequest -> option Response)
    (n : nat) (urls : list string) : Prop :=
  (forall u : string, In u urls -> http_or_https (resolveURL u)) /\
  NoDup (map resolveURL urls) /\
  answered_addable resolveURL net n urls.

(** The responses so gathered, when every one is there and taken. *)
Fixpoint gathered (resolveURL : string -> string)
    (net : nat -> NetRequest -> option Response)
    (n : nat) (urls : list string) : option (list (string * Response)) :=
  match urls with
  | [] => Some []
  | u :: urls' =>
      match net n (mkNetRequest "GET" (resolveURL u) [] EmptyString) with
      | Some r =>
          if addable r then
            match gathered resolveURL net (S n) urls' with
            | Some rs => Some ((resolveURL u, r) :: rs)
            | None => None
            end
          else None
      | None => None
      end
  end.

(** What a bulk population of the URLs stores, if it stores anything. *)
Definition addAll_result (resolveURL : string -> string)
    (net : nat -> NetRequest -> option Response)
    (n : nat) (urls : list string) : option (list (string * Response)) :=
  if forallb (fun u => http_url (resolveURL u)) urls then
    match gathered resolveURL net n urls with
    | Some rs => if distinct (map fst rs) then Some rs else None
    | None => None
    end
  else None.

(** ** Activation and messages (sw.js:51-71, 407-440) *)

(** [caches.keys()]: the names, in creation order. *)
Definition caches_keys : Async (list string) :=
  fun w => (Fulfilled (map fst (caches w)), w).

Definition delete_region (name : string) (cs : CacheStorage) : CacheStorage :=
  List.filter (fun '(n, _) => negb (String.eqb n name)) cs.

(** [caches.delete(name)]: fulfils with whether there was such a region. *)
Definition caches_delete (name : string) : Async bool :=
  fun w =>
    (Fulfilled (match region name (caches w) with Some _ => true | None => false end),
     set_caches (delete_region name) w).

(** [Promise.all] over promises that are started in list order. *)
Definition Promise_all {A : Type} (ps : list (Async A)) : Async (list A) :=
  mapM (fun p => p) ps.

(** The worker's world, with what the activation and the message listener
    add to it: whether [clients.claim()] was called, and the versions posted
    on message ports, oldest first. *)
Record Host : Type := mkHost {
  world : World;
  claimed : bool;
  replies : list (nat * string)
}.

(** An asynchronous computation on the world, run in the host. *)
Definition in_world {A : Type} (m : Async A) (h : Host) : Settled A * Host :=
  (fst (m (world h)), mkHost (snd (m (world h))) (claimed h) (replies h)).

(** The promise handed to [event.waitUntil] by the activate listener. *)
Definition activate (h : Host) : Settled unit * Host :=
  match
    in_world
      (cacheNames ← caches_keys;
       Promise_all
         (map (fun cacheName =>
                 if negb (String.eqb cacheName STATIC_CACHE)
                    && negb (String.eqb cacheName DYNAMIC_CACHE)
                 then deleted ← caches_delete cacheName; mret (Some deleted)
                 else mret None)
              cacheNames)) h
  with
  | (Fulfilled _, h') => (Fulfilled tt, mkHost (world h') true (replies h'))
  | (Rejected e, h') => (Rejected e, h')
  end.

(** How a listener that is no promise ends. *)
Inductive Completion : Type :=
  | Completed
  | TypeError.

(** What the message listener reads of [event.data]: its [type] when that
    is a non-empty string (any other value matches no case of the switch),
    and the string that the template literals make of its [monasteryId]. *)
Record MessageData : Type := mkMessageData {
  data_type : option string;
  monasteryId : string
}.

Section Messages.

Variable resolveURL : string -> string.
Variable net : nat -> NetRequest -> option Response.

Definition cacheMonasteryData (monasteryId : string) : Async unit :=
  try_catch
    (cache ← caches_open DYNAMIC_CACHE;
     let urls :=
       [ "/api/monastery/" +:+ monasteryId;
         "/api/monastery/" +:+ monasteryId +:+ "/images";
         "/api/monastery/" +:+ monasteryId +:+ "/360-tour" ] in
     cache_addAll resolveURL net cache urls)
    (fun error => mret tt).

(** The message listener; [data] is [None] for a falsy [event.data],
    [ports] are the ports of the event. *)
Definition onmessage (data : option MessageData) (ports : list nat) (h : Host)
  : Completion * Host :=
  match data with
  | None => (Completed, h)
  | Some d =>
      match data_type d with
      | None => (Completed, h)
      | Some t =>
          if String.eqb t "SKIP_WAITING" then
            (Completed, snd (in_world (detach skipWaiting) h))
          else if String.eqb t "GET_VERSION" then
            match ports with
            | port :: _ =>
                (Completed,
                 mkHost (world h) (claimed h) (replies h ++ [(port, CACHE_NAME)]))
            | [] => (TypeError, h)
            end
          else if String.eqb t "CACHE_MONASTERY" then
            (Completed, snd (in_world (detach (cacheMonasteryData (monasteryId d))) h))
          else (Completed, h)
      end
  end.

End Messages.

(** ** Push and notification clicks (sw.js:325-393) *)

Record Action : Type := mkAction {
  action : string;
  action_title : string;
  action_icon : option string
}.

Record WindowClient : Type := mkWindowClient {
  client_url : string;
  focusable : bool        (* ['focus' in client] *)
}.

Section Notifications.

(** JavaScript values, as [JSON.parse] makes them and a notification keeps
    them: a string as a value, an object literal, the own enumerable
    properties that a spread copies, the read of a property ([None]:
    undefined), truthiness, and the conversion to a string ([None]: it
    throws). *)
Variable Value : Type.
Variable str : string -> Value.
Variable obj : list (string * Value) -> Value.
Variable own_props : Value -> list (string * Value).
Variable prop : Value -> string -> option Value.
Variable truthy : Value -> bool.
Variable ToString : Value -> option string.

(** An object under construction: its properties by name. *)
Definition spread (o : gmap string Value) (props : list (string * Value))
  : gmap string Value :=
  fold_left (fun m '(k, v) => <[k := v]> m) props o.

Definition default_notificationData : gmap string Value :=
  spread ∅
    [ ("title", str "Techkkim Monastery Update");
      ("body", str "New monastery content available!");
      ("icon", str "/icon-192.png");
      ("badge", str "/icon-72.png");
      ("tag", str "monastery-update");
      ("data", obj [("url", str "/")]) ].

(** The call [showNotification(title, {body, icon, badge, tag, data,
    actions})]; [None] is undefined. *)
Record Notification : Type := mkNotification {
  n_title : option Value;
  n_body : option Value;
  n_icon : option Value;
  n_badge : option Value;
  n_tag : option Value;
  n_data : option Value;
  n_actions : list Action
}.

(** The push listener; [data] is [None] without [event.data], [Some None]
    when [event.data.json()] throws, and else what it parses to. *)
Definition onpush (data : option (option Value)) : Notification :=
  let notificationData :=
    match data with
    | Some (Some parsed) => spread default_notificationData (own_props parsed)
    | Some None => default_notificationData
    | None => default_notificationData
    end in
  {| n_title := notificationData !! "title";
     n_body := notificationData !! "body";
     n_icon := notificationData !! "icon";
     n_badge := notificationData !! "badge";
     n_tag := notificationData !! "tag";
     n_data := notificationData !! "data";
     n_actions :=
       [ mkAction "view" "👀 View" (Some "/icon-72.png");
         mkAction "dismiss" "❌ Dismiss" None ] |}.

Inductive ClickCall : Type :=
  | Close                              (* [event.notification.close()] *)
  | Focus (client : WindowClient)      (* [client.focus()] *)
  | OpenWindow (u : Value).            (* [clients.openWindow(u)] *)

(** The loop of sw.js:380-384 over the window clients. *)
Fixpoint focus_or_open (u : Value) (openWindow : bool)
    (clientList : list WindowClient) : Completion * list ClickCall :=
  match clientList with
  | [] => (Completed, if openWindow then [OpenWindow u] else [])
  | client :: rest =>
      match ToString u with
      | None => (TypeError, [])
      | Some target =>
          if includes (client_url client) target && focusable client
          then (Completed, [Focus client])
          else focus_or_open u openWindow rest
      end
  end.

(** The notification-click listener: the action of the event, the data of
    its notification ([None]: null or undefined), the window clients that
    [clients.matchAll] gives, and whether [clients.openWindow] is there.
    The completion is that of the promise handed to [event.waitUntil]. *)
Definition onnotificationclick (act : string) (data : option Value)
    (clientList : list WindowClient) (openWindow : bool)
  : Completion * list ClickCall :=
  if String.eqb act "view" || String.eqb act EmptyString then
    let u :=
      match data with
      | Some d =>
          match prop d "url" with
          | Some v => if truthy v then v else str "/"
          | None => str "/"
          end
      | None => str "/"
      end in
    let '(c, calls) := focus_or_open u openWindow clientList in
    (c, Close :: calls)
  else (Completed, [Close]).

End Notifications.

(** The three URLs of sw.js:429-433. *)
Definition monastery_urls (monasteryId : string) : list string :=
  [ "/api/monastery/" +:+ monasteryId;
    "/api/monastery/" +:+ monasteryId +:+ "/images";
    "/api/monastery/" +:+ monasteryId +:+ "/360-tour" ].

(** The storage after the puts of a bulk population. *)
Definition put_each (name : string) (rs : list (string * Response))
    (cs : CacheStorage) : CacheStorage :=
  fold_left (fun cs' '(u, r) => put_in name u r cs') rs cs.

(** The value that a spread of [props] gives the property [k], if any: a
    later property of the same name wins. *)
Fixpoint own_prop {V : Type} (k : string) (props : list (string * V)) : option V :=
  match props with
  | [] => None
  | (k', v) :: rest =>
      match own_prop k rest with
      | Some v' => Some v'
      | None => if String.eqb k' k then Some v else None
      end
  end.

(** ** More concrete inputs, for the examples *)

Module Fixture2.

(** A host that has just been started. *)
Definition started : Host := mkHost Fixture.fresh false [].

(** A storage with regions of an older version beside the current ones. *)
Definition upgraded : Host :=
  mkHost
    (mkWorld
       [ ("techkkim-static-v0.9", {[ Fixture.lib := Fixture.page 200 "v0.9" ]});
         (STATIC_CACHE, {[ Fixture.lib := Fixture.page 200 "v1.0" ]});
         (CACHE_NAME, {[ Fixture.lib := Fixture.page 200 "misc" ]});
         (DYNAMIC_CACHE, ∅) ]
       [] ["client-1"] [] false)
    false [].

(** A small universe of values: strings and objects. *)
#[local] Unset Elimination Schemes.
Inductive value : Type :=
  | VString (s : string)
  | VObject (props : list (string * value)).
#[local] Set Elimination Schemes.

Definition own_props (v : value) : list (string * value) :=
  match v with
  | VString _ => []
  | VObject props => props
  end.

Definition prop (v : value) (k : string) : option value :=
  own_prop k (own_props v).

Definition truthy (v : value) : bool :=
  match v with
  | VString s => negb (String.eqb s EmptyString)
  | VObject _ => true
  end.

Definition ToString (v : value) : option string :=
  match v with
  | VString s => Some s
  | VObject _ => Some "[object Object]"
  end.

End Fixture2.

(** * Facts *)

(** ** Strings and patterns *)

Section StringFacts.

Lemma append_assoc (a b c : string) : (a +:+ b) +:+ c = a +:+ b +:+ c.
Proof.
  induction a as [|x a IH]; [reflexivity |].
  change (String x ((a +:+ b) +:+ c) = String x (a +:+ b +:+ c)).
  rewrite IH. reflexivity.
Qed.

Lemma startsWith_spec (s t : string) :
  startsWith s t = true <-> is_prefix t s.
Proof.
  revert s. induction t as [|c t IH]; intros s; simpl.
  - split; [intros _; exists s; reflexivity | reflexivity].
  - destruct s as [|d s].
    + split; [discriminate | intros [post H]; discriminate H].
    + rewrite andb_true_iff, Ascii.eqb_eq, IH. split.
      * intros [-> [post ->]]. exists post. reflexivity.
      * intros [post H]. simpl in H. injection H as -> ->.
        split; [reflexivity | exists post; reflexivity].
Qed.

Lemma includes_spec (s t : string) :
  includes s t = true <-> is_substring t s.
Proof.
  induction s as [|a s IH].
  - simpl. rewrite orb_false_r, startsWith_spec. split.
    + intros [post ->]. exists EmptyString, post. reflexivity.
    + intros [pre [post H]]. destruct pre; [| discriminate H].
      exists post. exact H.
  - cbn [includes]. rewrite orb_true_iff, startsWith_spec, IH. split.
    + intros [[post ->] | [pre [post ->]]].
      * exists EmptyString, post. reflexivity.
      * exists (String a pre), post. reflexivity.
    + intros [pre [post H]]. destruct pre as [|b pre].
      * left. exists post. exact H.
      * right. simpl in H. injection H as -> ->. exists pre, post. reflexivity.
Qed.

Lemma endsWith_spec (s t : string) :
  endsWith s t = true <-> is_suffix t s.
Proof.
  induction s as [|a s IH].
  - simpl. rewrite orb_false_r. split.
    + destruct t; [intros _; exists EmptyString; reflexivity | discriminate].
    + intros [pre H]. destruct pre; [| discriminate H].
      change (EmptyString = t) in H. rewrite <- H. reflexivity.
  - cbn [endsWith]. rewrite orb_true_iff, String.eqb_eq, IH. split.
    + intros [<- | [pre ->]].
      * exists EmptyString. reflexivity.
      * exists (String a pre). reflexivity.
    + intros [pre H]. destruct pre as [|b pre].
      * left. exact H.
      * right. simpl in H. injection H as -> ->. exists pre. reflexivity.
Qed.

Lemma match_here_lit (t s : string) :
  match_here (lit t) s = startsWith s t.
Proof.
  revert s. induction t as [|c t IH]; intros s; [reflexivity |].
  destruct s as [|d s]; [reflexivity |].
  change (Ascii.eqb c d && match_here (lit t) s = Ascii.eqb c d && startsWith s t).
  rewrite IH. reflexivity.
Qed.

Lemma match_here_lit_end (t s : string) :
  match_here (lit t ++ [EndOfInput])%list s = String.eqb s t.
Proof.
  revert s. induction t as [|c t IH]; intros s.
  - destruct s; reflexivity.
  - destruct s as [|d s]; [reflexivity |].
    change (Ascii.eqb c d && match_here (lit t ++ [EndOfInput])%list s
            = Ascii.eqb d c && String.eqb s t).
    rewrite IH, (Ascii.eqb_sym c d). reflexivity.
Qed.

Lemma search_lit (t s : string) : search (lit t) s = includes s t.
Proof.
  induction s as [|a s IH]; cbn [search includes]; rewrite match_here_lit;
    [reflexivity | rewrite IH; reflexivity].
Qed.

Lemma search_lit_end (t s : string) :
  search (lit t ++ [EndOfInput])%list s = endsWith s t.
Proof.
  induction s as [|a s IH]; cbn [search endsWith]; rewrite match_here_lit_end;
    [reflexivity | rewrite IH; reflexivity].
Qed.

(** The four patterns of sw.js:23-28 on a URL. *)
Lemma dynamic_patterns_test (u : string) :
  existsb (fun pattern => test pattern u) DYNAMIC_PATTERNS = true
  <-> dynamic_content u.
Proof.
  unfold DYNAMIC_PATTERNS, test, dynamic_content. cbn [existsb].
  rewrite !search_lit, !search_lit_end, !orb_false_r, !orb_true_iff.
  rewrite !includes_spec, !endsWith_spec. tauto.
Qed.

Lemma static_assets_includes (u : string) :
  existsb (fun asset => includes u asset) STATIC_ASSETS = true
  <-> in_allowlist u.
Proof.
  unfold in_allowlist. rewrite existsb_exists.
  split; intros [asset [Hin H]]; exists asset; split; try exact Hin;
    apply includes_spec; exact H.
Qed.

End StringFacts.

(** ** What the cache takes *)

Section VaryFacts.

Lemma split_commas_cons (c : ascii) (s : string) :
  split_commas (String c s) =
  match split_commas s with
  | [] => [String c EmptyString]
  | member :: members =>
      if Ascii.eqb c (ascii_of_nat 44) then EmptyString :: member :: members
      else String c member :: members
  end.
Proof. reflexivity. Qed.

Lemma split_commas_nonempty (s : string) : split_commas s <> [].
Proof.
  induction s as [|c s IH]; [discriminate |].
  rewrite split_commas_cons. destruct (split_commas s); [discriminate |].
  destruct (Ascii.eqb c (ascii_of_nat 44)); discriminate.
Qed.

Lemma join_commas_split (s : string) : join_commas (split_commas s) = s.
Proof.
  induction s as [|c s IH]; [reflexivity |].
  rewrite split_commas_cons.
  pose proof (split_commas_nonempty s) as Hne.
  destruct (split_commas s) as [|m ms]; [contradiction |].
  destruct (Ascii.eqb_spec c (ascii_of_nat 44)) as [-> | Hc].
  - change (String (ascii_of_nat 44) (join_commas (m :: ms))
            = String (ascii_of_nat 44) s).
    rewrite IH. reflexivity.
  - destruct ms as [|m' ms].
    + cbn [join_commas] in *. rewrite IH. reflexivity.
    + cbn [join_commas] in *. rewrite <- IH. reflexivity.
Qed.

Lemma split_commas_free (s m : string) :
  In m (split_commas s) -> comma_free m.
Proof.
  revert m. induction s as [|c s IH]; intros m.
  - intros [<- | []]. intros [].
  - rewrite split_commas_cons.
    pose proof (split_commas_nonempty s) as Hne.
    destruct (split_commas s) as [|m0 ms]; [contradiction |].
    destruct (Ascii.eqb_spec c (ascii_of_nat 44)) as [-> | Hc].
    + intros [<- | Hin]; [intros [] | exact (IH m Hin)].
    + intros [<- | Hin]; [| apply IH; right; exact Hin].
      intros [Heq | Hin]; [congruence |].
      exact (IH m0 (or_introl eq_refl) Hin).
Qed.

Lemma split_commas_member (m : string) (ms : list string) :
  comma_free m ->
  split_commas (m +:+ String (ascii_of_nat 44) (join_commas ms))
  = m :: split_commas (join_commas ms).
Proof.
  induction m as [|c m IH]; intros Hfree.
  - change (split_commas (String (ascii_of_nat 44) (join_commas ms))
            = EmptyString :: split_commas (join_commas ms)).
    rewrite split_commas_cons.
    pose proof (split_commas_nonempty (join_commas ms)) as Hne.
    destruct (split_commas (join_commas ms)); [contradiction | reflexivity].
  - change (split_commas (String c (m +:+ String (ascii_of_nat 44) (join_commas ms)))
            = String c m :: split_commas (join_commas ms)).
    rewrite split_commas_cons, IH.
    + destruct (Ascii.eqb_spec c (ascii_of_nat 44)) as [-> | Hc]; [| reflexivity].
      exfalso. apply Hfree. left. reflexivity.
    + intros Hin. apply Hfree. right. exact Hin.
Qed.

Lemma split_commas_single (m : string) :
  comma_free m -> split_commas m = [m].
Proof.
  induction m as [|c m IH]; intros Hfree; [reflexivity |].
  rewrite split_commas_cons, IH.
  - destruct (Ascii.eqb_spec c (ascii_of_nat 44)) as [-> | Hc]; [| reflexivity].
    exfalso. apply Hfree. left. reflexivity.
  - intros Hin. apply Hfree. right. exact Hin.
Qed.

Lemma split_commas_join (ms : list string) :
  ms <> [] ->
  (forall m, In m ms -> comma_free m) ->
  split_commas (join_commas ms) = ms.
Proof.
  induction ms as [|m ms IH]; intros Hne Hfree; [contradiction |].
  destruct ms as [|m' ms].
  - apply split_commas_single. apply Hfree. left. reflexivity.
  - change (join_commas (m :: m' :: ms))
      with (m +:+ String (ascii_of_nat 44) (join_commas (m' :: ms))).
    rewrite split_commas_member by (apply Hfree; left; reflexivity).
    rewrite IH; [reflexivity | discriminate |].
    intros x Hx. apply Hfree. right. exact Hx.
Qed.

Lemma split_commas_spec (member value : string) :
  In member (split_commas value) <-> field_member member value.
Proof.
  split.
  - intros Hin. exists (split_commas value). split; [| split].
    + intros m. apply split_commas_free.
    + symmetry. apply join_commas_split.
    + exact Hin.
  - intros (ms & Hfree & -> & Hin).
    rewrite split_commas_join; [exact Hin | | exact Hfree].
    intros ->. destruct Hin.
Qed.

Lemma http_whitespace_spec (c : ascii) :
  http_whitespace c = true <-> c = ascii_of_nat 32 \/ c = ascii_of_nat 9.
Proof.
  unfold http_whitespace. rewrite orb_true_iff, !Ascii.eqb_eq. reflexivity.
Qed.

Lemma blank_cons (c : ascii) (s : string) :
  blank (String c s) <-> http_whitespace c = true /\ blank s.
Proof.
  unfold blank. cbn [list_ascii_of_string]. rewrite http_whitespace_spec. split.
  - intros H. split; [apply H; left; reflexivity |].
    intros d Hd. apply H. right. exact Hd.
  - intros [Hc Hs] d [<- | Hd]; [exact Hc | exact (Hs d Hd)].
Qed.

Lemma blank_nil : blank EmptyString.
Proof. intros c []. Qed.

(** What [trim_start] takes away and what it leaves. *)
Lemma trim_start_spec (s : string) :
  exists l : string,
    blank l /\ s = l +:+ trim_start s /\
    match trim_start s with
    | EmptyString => True
    | String c _ => http_whitespace c = false
    end.
Proof.
  induction s as [|c s (l & Hl & Hs & Hhead)].
  - exists EmptyString. split; [apply blank_nil |]. split; [reflexivity | exact I].
  - cbn [trim_start]. destruct (http_whitespace c) eqn:Hc.
    + exists (String c l). split; [apply blank_cons; split; assumption |].
      split; [| exact Hhead].
      change (String c s = String c (l +:+ trim_start s)). rewrite <- Hs.
      reflexivity.
    + exists EmptyString. split; [apply blank_nil |].
      split; [reflexivity | exact Hc].
Qed.

Lemma trim_start_blank (l s : string) :
  blank l ->
  match s with
  | EmptyString => True
  | String c _ => http_whitespace c = false
  end ->
  trim_start (l +:+ s) = s.
Proof.
  intros Hl Hs. induction l as [|c l IH].
  - change (trim_start s = s). destruct s as [|c s]; [reflexivity |].
    cbn [trim_start]. rewrite Hs. reflexivity.
  - apply blank_cons in Hl. destruct Hl as [Hc Hl].
    change (trim_start (String c (l +:+ s)) = s). cbn [trim_start].
    rewrite Hc. exact (IH Hl).
Qed.

Lemma trim_end_cons (c : ascii) (s : string) :
  trim_end (String c s) =
  match trim_end s with
  | EmptyString => if http_whitespace c then EmptyString else String c EmptyString
  | rest => String c rest
  end.
Proof. reflexivity. Qed.

(** What [trim_end] takes away. *)
Lemma trim_end_spec (s : string) :
  exists t : string, blank t /\ s = trim_end s +:+ t.
Proof.
  induction s as [|c s (t & Ht & Hs)].
  - exists EmptyString. split; [apply blank_nil | reflexivity].
  - rewrite trim_end_cons. destruct (trim_end s) as [|d rest] eqn:Hend.
    + change (s = t) in Hs. subst t.
      destruct (http_whitespace c) eqn:Hc.
      * exists (String c s). split; [apply blank_cons; split; assumption |].
        reflexivity.
      * exists s. split; [exact Ht | reflexivity].
    + exists t. split; [exact Ht |].
      change (String c s = String c (String d rest +:+ t)). rewrite <- Hs.
      reflexivity.
Qed.

Lemma trim_end_blank (t : string) : blank t -> trim_end t = EmptyString.
Proof.
  induction t as [|c t IH]; intros Ht; [reflexivity |].
  apply blank_cons in Ht. destruct Ht as [Hc Ht].
  rewrite trim_end_cons, (IH Ht), Hc. reflexivity.
Qed.

Lemma trim_star (member : string) :
  trim_end (trim_start member) = "*" <->
  exists l t : string, blank l /\ blank t /\ member = l +:+ "*" +:+ t.
Proof.
  split.
  - intros Htrim.
    destruct (trim_start_spec member) as (l & Hl & Hm & _).
    destruct (trim_end_spec (trim_start member)) as (t & Ht & Hs).
    rewrite Htrim in Hs. exists l, t. split; [exact Hl |]. split; [exact Ht |].
    rewrite <- Hs. exact Hm.
  - intros (l & t & Hl & Ht & ->).
    rewrite trim_start_blank; [| exact Hl | reflexivity].
    change (trim_end (String "*" t) = "*").
    rewrite trim_end_cons, (trim_end_blank t Ht). reflexivity.
Qed.

Lemma header_values_spec (name v : string) (hs : list (string * string)) :
  In v (header_values name hs) <->
  exists n : string, In (n, v) hs /\ toLowerCase n = toLowerCase name.
Proof.
  induction hs as [|[n0 v0] hs IH]; cbn [header_values].
  - split; [intros [] | intros (n & [] & _)].
  - destruct (String.eqb_spec (toLowerCase n0) (toLowerCase name)) as [He | Hne].
    + cbn [In]. rewrite IH. split.
      * intros [<- | (n & Hin & Hn)];
          [exists n0; split; [left; reflexivity | exact He]
          | exists n; split; [right; exact Hin | exact Hn]].
      * intros (n & [[= <- <-] | Hin] & Hn);
          [left; reflexivity | right; exists n; split; assumption].
    + rewrite IH. split.
      * intros (n & Hin & Hn). exists n. split; [right; exact Hin | exact Hn].
      * intros (n & [[= <- <-] | Hin] & Hn); [contradiction |].
        exists n. split; assumption.
Qed.

Lemma vary_star_spec (r : Response) :
  vary_star r = true <-> varies_on_star r.
Proof.
  unfold vary_star, varies_on_star. rewrite existsb_exists. split.
  - intros (value & Hvalue & Hmember).
    apply existsb_exists in Hmember. destruct Hmember as (member & Hin & Hstar).
    apply String.eqb_eq, trim_star in Hstar. destruct Hstar as (l & t & Hl & Ht & Hm).
    apply header_values_spec in Hvalue. destruct Hvalue as (name & Hh & Hname).
    exists name, value, member, l, t.
    split; [exact Hh |]. split; [exact Hname |].
    split; [apply split_commas_spec; exact Hin |]. auto.
  - intros (name & value & member & l & t & Hh & Hname & Hmem & Hl & Ht & Hm).
    exists value. split.
    + apply header_values_spec. exists name. split; [exact Hh | exact Hname].
    + apply existsb_exists. exists member.
      split; [apply split_commas_spec; exact Hmem |].
      apply String.eqb_eq, trim_star. exists l, t. auto.
Qed.

Lemma http_url_spec (u : string) : http_url u = true <-> http_or_https u.
Proof.
  unfold http_url, http_or_https.
  rewrite orb_true_iff, !startsWith_spec. reflexivity.
Qed.

Lemma storable_spec (r : Response) :
  storable r = true <-> status r <> 206%Z /\ ~ varies_on_star r.
Proof.
  unfold storable. rewrite andb_true_iff, !negb_true_iff, <- vary_star_spec.
  rewrite Z.eqb_neq. destruct (vary_star r); intuition congruence.
Qed.

Lemma put_accepts_spec (request : Request) (r : Response) :
  put_accepts request r = true <-> cache_takes request r.
Proof.
  unfold put_accepts, cache_takes.
  rewrite !andb_true_iff, String.eqb_eq, http_url_spec, storable_spec. tauto.
Qed.

Lemma cacheable_spec (request : Request) (r : Response) :
  cacheable request r = true <-> stores request r.
Proof.
  unfold cacheable, stores.
  rewrite andb_true_iff, Z.eqb_eq, put_accepts_spec. reflexivity.
Qed.

Lemma cacheable_cases (request : Request) (r : Response) :
  (cacheable request r = true /\ stores request r) \/
  (cacheable request r = false /\ ~ stores request r).
Proof.
  destruct (cacheable request r) eqn:Hc.
  - left. split; [reflexivity | apply cacheable_spec, Hc].
  - right. split; [reflexivity |]. intros Hs. apply cacheable_spec in Hs.
    congruence.
Qed.

Lemma addable_spec (r : Response) : addable r = true <-> addAll_takes r.
Proof.
  unfold addable, addAll_takes, ok.
  rewrite !andb_true_iff, !Z.leb_le, storable_spec. tauto.
Qed.

End VaryFacts.


(** ** The offline fallback *)





(** ** Routing *)

Section Routing.

Variable origin_of : string -> string.
Variable location_origin : string.

Lemma route_Dispatch (request : Request) :
  Dispatch origin_of location_origin request
    (route origin_of location_origin request).
Proof.
  unfold route.
  destruct (String.eqb_spec (method request) "GET") as [Hm | Hm]; cbn [negb];
    [| constructor; exact Hm].
  destruct (String.eqb_spec (origin_of (url request)) location_origin) as [Ho | Ho];
    [apply Dispatch_same_origin; assumption |].
  destruct (existsb (fun asset => includes (url request) asset) STATIC_ASSETS) eqn:Ha.
  { apply Dispatch_static_asset; try assumption.
    apply static_assets_includes. exact Ha. }
  assert (Hna : ~ in_allowlist (url request)).
  { rewrite <- static_assets_includes, Ha. discriminate. }
  destruct (existsb (fun pattern => test pattern (url request)) DYNAMIC_PATTERNS) eqn:Hp.
  { apply Dispatch_dynamic; try assumption.
    apply dynamic_patterns_test. exact Hp. }
  apply Dispatch_other; try assumption.
  rewrite <- dynamic_patterns_test, Hp. discriminate.
Qed.

Lemma Dispatch_functional (request : Request) (o1 o2 : option Strategy) :
  Dispatch origin_of location_origin request o1 ->
  Dispatch origin_of location_origin request o2 ->
  o1 = o2.
Proof.
  intros H1 H2. inversion H1; inversion H2; subst;
    try reflexivity; contradiction.
Qed.

(** Every URL with a slash in it contains the allowlist member "/": a GET
    request for such a URL is always served cache-first. *)
Lemma route_slash (request : Request) :
  method request = "GET" ->
  is_substring "/" (url request) ->
  route origin_of location_origin request = Some CacheFirst.
Proof.
  intros Hm Hs.
  assert (Ha : in_allowlist (url request)).
  { exists "/". split; [left; reflexivity | exact Hs]. }
  pose proof (route_Dispatch request) as Hd.
  inversion Hd; try reflexivity; contradiction.
Qed.

(** No pattern with a slash can decide the route: a request is served
    network-first only for an image-file extension. *)
Lemma route_NetworkFirst (request : Request) :
  route origin_of location_origin request = Some NetworkFirst ->
  ~ is_substring "/" (url request) /\
  (is_suffix ".jpg" (url request) \/ is_suffix ".png" (url request) \/
   is_suffix ".webp" (url request) \/ is_suffix ".gif" (url request)).
Proof.
  intros Hr. pose proof (route_Dispatch request) as Hd. rewrite Hr in Hd.
  inversion Hd as [| | | Hm Ho Ha Hdyn |]; subst.
  assert (Hns : ~ is_substring "/" (url request)).
  { intros Hs. apply Ha. exists "/". split; [left; reflexivity | exact Hs]. }
  split; [exact Hns |].
  assert (Hsub : forall t pre post : string,
             is_substring (pre +:+ "/" +:+ post) t -> is_substring "/" t).
  { intros t pre post [a [b ->]]. exists (a +:+ pre), (post +:+ b).
    rewrite !append_assoc. reflexivity. }
  destruct Hdyn as [H | [H | [H | H]]]; [exfalso; apply Hns .. | exact H].
  - apply (Hsub _ EmptyString "api/"). exact H.
  - apply (Hsub _ EmptyString "monastery/"). exact H.
  - apply (Hsub _ EmptyString "archives/"). exact H.
Qed.

End Routing.

(** ** The cache storage *)

Section StorageFacts.


Lemma region_app (name : string) (cs cs2 : CacheStorage) :
  region name (cs ++ cs2) =
  match region name cs with
  | Some c => Some c
  | None => region name cs2
  end.
Proof.
  induction cs as [|[m d] cs IH]; simpl; [reflexivity |].
  destruct (String.eqb m name); [reflexivity | exact IH].
Qed.

Lemma region_open_region (name : string) (cs : CacheStorage) :
  region name (open_region name cs) <> None.
Proof.
  unfold open_region. destruct (region name cs) eqn:E.
  - rewrite E. discriminate.
  - rewrite region_app, E. simpl. rewrite String.eqb_refl. discriminate.
Qed.

Lemma match_in_open_region (n u name : string) (cs : CacheStorage) :
  match_in n u (open_region name cs) = match_in n u cs.
Proof.
  unfold open_region. destruct (region name cs) eqn:E; [reflexivity |].
  unfold match_in. rewrite region_app.
  destruct (region n cs); [reflexivity |]. simpl.
  destruct (String.eqb name n); [apply lookup_empty | reflexivity].
Qed.

Lemma match_all_app (u : string) (cs cs2 : CacheStorage) :
  match_all u (cs ++ cs2) =
  match match_all u cs with
  | Some r => Some r
  | None => match_all u cs2
  end.
Proof.
  induction cs as [|[m d] cs IH]; simpl; [reflexivity |].
  destruct (d !! u); [reflexivity | exact IH].
Qed.

Lemma match_all_open_region (u name : string) (cs : CacheStorage) :
  match_all u (open_region name cs) = match_all u cs.
Proof.
  unfold open_region. destruct (region name cs); [reflexivity |].
  rewrite match_all_app. destruct (match_all u cs); [reflexivity |].
  simpl. rewrite lookup_empty. reflexivity.
Qed.

(** A put overwrites whatever the region held for the URL. *)
Lemma match_in_put_in_eq (name u : string) (r : Response) (cs : CacheStorage) :
  region name cs <> None ->
  match_in name u (put_in name u r cs) = Some r.
Proof.
  induction cs as [|[m d] cs IH]; simpl; [congruence |].
  destruct (String.eqb_spec m name) as [-> | Hne]; intros H.
  - unfold match_in. simpl. rewrite String.eqb_refl. apply lookup_insert_eq.
  - unfold match_in in *. simpl.
    destruct (String.eqb_spec m name); [contradiction |]. apply IH. exact H.
Qed.

(** A put leaves every other entry of the storage alone. *)
Lemma match_in_put_in_ne (n u' name u : string) (r : Response) (cs : CacheStorage) :
  (n, u') <> (name, u) ->
  match_in n u' (put_in name u r cs) = match_in n u' cs.
Proof.
  intros Hne. induction cs as [|[m d] cs IH]; simpl; [reflexivity |].
  unfold match_in in *.
  destruct (String.eqb_spec m name) as [-> | Hm]; simpl.
  - destruct (String.eqb_spec name n) as [-> | Hn]; [| reflexivity].
    apply lookup_insert_ne. congruence.
  - destruct (String.eqb_spec m n); [reflexivity | exact IH].
Qed.

(** Lookups across all regions see the first region that has an entry. *)
Lemma match_all_first (u : string) (cs pre post : CacheStorage)
    (name : string) (c : Cache) (r : Response) :
  cs = (pre ++ (name, c) :: post)%list ->
  (forall n d, In (n, d) pre -> d !! u = None) ->
  c !! u = Some r ->
  match_all u cs = Some r.
Proof.
  intros -> Hpre Hc. induction pre as [|[m d] pre IH]; simpl.
  - rewrite Hc. reflexivity.
  - rewrite (Hpre m d) by (left; reflexivity).
    apply IH. intros n e Hin. apply (Hpre n e). right. exact Hin.
Qed.

Lemma match_all_None (u : string) (cs : CacheStorage) :
  match_all u cs = None <-> (forall n d, In (n, d) cs -> d !! u = None).
Proof.
  induction cs as [|[m d] cs IH]; simpl.
  - split; [intros _ n d [] | reflexivity].
  - destruct (d !! u) eqn:E.
    + split; [discriminate |]. intros H.
      rewrite <- E. apply (H m d). left. reflexivity.
    + rewrite IH. split.
      * intros H n e [[= -> ->] | Hin]; [exact E | apply (H n e Hin)].
      * intros H n e Hin. apply (H n e). right. exact Hin.
Qed.

End StorageFacts.

(** ** The strategies *)

Ltac async_unfold :=
  unfold try_catch, detach, mbind, Async_bind, mret, Async_ret, throw,
    fetch, caches_match, cache_match, caches_open, cache_put; cbv beta.

Ltac world_simpl :=
  cbn [fst snd caches sent controlled posted skippedWaiting
       log_sent log_posted set_caches set_skippedWaiting].

Section StrategyFacts.

Variable net : nat -> NetRequest -> option Response.

Lemma match_all_first_entry (u : string) (cs : CacheStorage) (r : Response) :
  first_entry u cs r -> match_all u cs = Some r.
Proof.
  intros (pre & name & c & post & Hcs & Hpre & Hc).
  exact (match_all_first u cs pre post name c r Hcs Hpre Hc).
Qed.


(** Network-first always settles with a response. *)
Lemma networkFirstStrategy_answers (request : Request) (w : World) :
  exists r : Response, fst (networkFirstStrategy net request w) = Fulfilled r.
Proof.
  unfold networkFirstStrategy. async_unfold.
  destruct (net (length (sent w)) (of_request request)) as [r |].
  - exists r. destruct (status r =? 200)%Z; reflexivity.
  - cbn [fst snd]. eexists. reflexivity.
Qed.

(** Cache-first and network-first, in one equation each. *)
Lemma cacheFirstStrategy_eq (request : Request) (w : World) :
  cacheFirstStrategy net request w =
  match match_all (url request) (caches w) with
  | Some c => (Fulfilled c, w)
  | None =>
      match net (length (sent w)) (of_request request) with
      | Some r =>
          (Fulfilled r,
           if cacheable request r then
             set_caches (fun cs => put_in STATIC_CACHE (url request) r
                                     (open_region STATIC_CACHE cs))
               (log_sent (of_request request) w)
           else if (status r =? 200)%Z then
             set_caches (open_region STATIC_CACHE) (log_sent (of_request request) w)
           else log_sent (of_request request) w)
      | None =>
          (Fulfilled (getOfflineFallback request),
           log_sent (of_request request) w)
      end
  end.
Proof.
  unfold cacheFirstStrategy, cacheable. async_unfold.
  destruct (match_all (url request) (caches w)) as [c |]; [reflexivity |].
  destruct (net (length (sent w)) (of_request request)) as [r |];
    [| reflexivity].
  destruct (status r =? 200)%Z; [destruct (put_accepts request r) |];
    reflexivity.
Qed.

Lemma networkFirstStrategy_eq (request : Request) (w : World) :
  networkFirstStrategy net request w =
  match net (length (sent w)) (of_request request) with
  | Some r =>
      (Fulfilled r,
       if cacheable request r then
         set_caches (fun cs => put_in DYNAMIC_CACHE (url request) r
                                 (open_region DYNAMIC_CACHE cs))
           (log_sent (of_request request) w)
       else if (status r =? 200)%Z then
         set_caches (open_region DYNAMIC_CACHE) (log_sent (of_request request) w)
       else log_sent (of_request request) w)
  | None =>
      (Fulfilled (match match_all (url request) (caches w) with
                  | Some c => c
                  | None => getOfflineFallback request
                  end),
       log_sent (of_request request) w)
  end.
Proof.
  unfold networkFirstStrategy, cacheable. async_unfold.
  destruct (net (length (sent w)) (of_request request)) as [r |];
    [| reflexivity].
  destruct (status r =? 200)%Z; [destruct (put_accepts request r) |];
    reflexivity.
Qed.

(** C6.  When the fetch of network-first fails, the strategy leaves the
    storage as it is and settles with the cached entry of the request, the
    very response that the first region holding one has stored (hence with
    its status and body), and with the offline fallback of the request when
    no region holds one. *)
Theorem networkFirstStrategy_offline (request : Request) (w : World) :
  net (length (sent w)) (of_request request) = None ->
  let out := networkFirstStrategy net request w in
  caches (snd out) = caches w /\
  (forall c : Response,
     first_entry (url request) (caches w) c ->
     fst out = Fulfilled c /\
     (forall r, fst out = Fulfilled r -> status r = status c /\ body r = body c)) /\
  (no_entry (url request) (caches w) ->
   fst out = Fulfilled (getOfflineFallback request)).
Proof.
  intros Hnet out. subst out.
  unfold networkFirstStrategy. async_unfold. rewrite Hnet. world_simpl.
  split; [reflexivity |]. split.
  - intros c Hc. rewrite (match_all_first_entry _ _ _ Hc).
    split; [reflexivity |]. intros r [= ->]. split; reflexivity.
  - intros Hno. apply match_all_None in Hno. rewrite Hno. reflexivity.
Qed.


(** What [respondWith] is given, strategy by strategy. *)
Lemma respondWith_CacheFirst (request : Request) (w : World) :
  respondWith net request CacheFirst w
  = responded (cacheFirstStrategy net request w).
Proof.
  unfold respondWith, responded, mbind, Async_bind.
  destruct (cacheFirstStrategy net request w) as [[r | e] w']; reflexivity.
Qed.

Lemma respondWith_NetworkFirst (request : Request) (w : World) :
  respondWith net request NetworkFirst w
  = responded (networkFirstStrategy net request w).
Proof.
  unfold respondWith, responded, mbind, Async_bind.
  destruct (networkFirstStrategy net request w) as [[r | e] w']; reflexivity.
Qed.

Lemma respondWith_replied (request : Request) (w : World) :
  respondWith net request StaleWhileRevalidate w
  = replied (staleWhileRevalidateStrategy net request w).
Proof.
  unfold respondWith, replied, mbind, Async_bind.
  destruct (staleWhileRevalidateStrategy net request w) as [[[r bg | q] | e] w'];
    reflexivity.
Qed.

(** What stale-while-revalidate does, in one equation. *)
Lemma respondWith_StaleWhileRevalidate (request : Request) (w : World) :
  respondWith net request StaleWhileRevalidate w =
  match match_in DYNAMIC_CACHE (url request) (caches w),
        net (length (sent w)) (of_request request) with
  | cached, Some r =>
      (Fulfilled (match cached with Some c => Some c | None => Some r end),
       log_sent (of_request request)
         (set_caches (fun cs =>
            if cacheable request r
            then put_in DYNAMIC_CACHE (url request) r (open_region DYNAMIC_CACHE cs)
            else open_region DYNAMIC_CACHE cs) w))
  | cached, None =>
      (Fulfilled cached,
       log_sent (of_request request) (set_caches (open_region DYNAMIC_CACHE) w))
  end.
Proof.
  unfold respondWith, staleWhileRevalidateStrategy. async_unfold. world_simpl.
  rewrite match_in_open_region.
  destruct (match_in DYNAMIC_CACHE (url request) (caches w)) as [c |];
    unfold settle; async_unfold; world_simpl;
    destruct (net (length (sent w)) (of_request request)) as [r |];
    try reflexivity;
    unfold cacheable;
    (destruct (status r =? 200)%Z; [destruct (put_accepts request r) |]);
    reflexivity.
Qed.


(** C7.  With an entry for the request in the dynamic region,
    stale-while-revalidate replies with that entry at once: the reply is
    made before any fetch has settled, the promise of the network branch
    is left to run on its own, and whatever it does, in whatever world and
    on whatever network, the caller gets the cached entry. *)
Theorem staleWhileRevalidate_hit (request : Request) (w : World) (c : Response) :
  match_in DYNAMIC_CACHE (url request) (caches w) = Some c ->
  exists (background : Async (option Response)) (w' : World),
    staleWhileRevalidateStrategy net request w = (Fulfilled (Now c background), w') /\
    sent w' = sent w /\
    (forall w'' : World, fst (settle (Now c background) w'') = Fulfilled (Some c)) /\
    fst (respondWith net request StaleWhileRevalidate w) = Fulfilled (Some c).
Proof.
  intros Hc. unfold staleWhileRevalidateStrategy. async_unfold. world_simpl.
  rewrite match_in_open_region, Hc.
  eexists. eexists. split; [reflexivity |]. split; [reflexivity |]. split.
  - intros w''. reflexivity.
  - rewrite respondWith_StaleWhileRevalidate, Hc.
    destruct (net (length (sent w)) (of_request request)); reflexivity.
Qed.

Lemma match_all_only (name u : string) (cs : CacheStorage) (c : Response) :
  match_in name u cs = Some c ->
  (forall n d, In (n, d) cs -> n <> name -> d !! u = None) ->
  match_all u cs = Some c.
Proof.
  unfold match_in. induction cs as [|[m d] cs IH]; simpl; [discriminate |].
  intros Hc Ho. destruct (String.eqb_spec m name) as [-> | Hne].
  - rewrite Hc. reflexivity.
  - rewrite (Ho m d) by (auto). apply IH; [exact Hc |].
    intros n e Hin. apply Ho. right. exact Hin.
Qed.






End StrategyFacts.

(** ** The fetch listener *)

Section ListenerFacts.

Variable origin_of : string -> string.
Variable location_origin : string.
Variable net : nat -> NetRequest -> option Response.


(** C2.  The fetch listener dispatches a request in exactly one way: a
    request that is not a GET is left alone (no [respondWith], no strategy
    called); a GET request is handed to one strategy, cache-first when it
    is same-origin, else cache-first when its URL contains an allowlist
    member, else network-first when its URL matches a dynamic-content
    pattern, and stale-while-revalidate otherwise; and the promise given to
    [respondWith] is the one that the function of that strategy,
    [cacheFirstStrategy], [networkFirstStrategy] or
    [staleWhileRevalidateStrategy], makes of the request. *)
Theorem fetch_dispatch (request : Request) :
  exists o : option Strategy,
    Dispatch origin_of location_origin request o /\
    (forall o', Dispatch origin_of location_origin request o' -> o' = o) /\
    onfetch origin_of location_origin net request
      = option_map (respondWith net request) o /\
    (o = None <-> method request <> "GET") /\
    match o with
    | None => onfetch origin_of location_origin net request = None
    | Some s =>
        exists p : Async (option Response),
          onfetch origin_of location_origin net request = Some p /\
          forall w : World,
            p w =
            match s with
            | CacheFirst => responded (cacheFirstStrategy net request w)
            | NetworkFirst => responded (networkFirstStrategy net request w)
            | StaleWhileRevalidate =>
                replied (staleWhileRevalidateStrategy net request w)
            end
    end.
Proof.
  exists (route origin_of location_origin request).
  pose proof (route_Dispatch origin_of location_origin request) as Hd.
  split; [exact Hd |]. split; [| split; [reflexivity | split]].
  - intros o' Ho'.
    exact (Dispatch_functional origin_of location_origin request _ _ Ho' Hd).
  - split.
    + intros Hn. rewrite Hn in Hd. inversion Hd. assumption.
    + intros Hm. inversion Hd; try reflexivity; contradiction.
  - unfold onfetch.
    destruct (route origin_of location_origin request) as [s |];
      [| reflexivity].
    exists (respondWith net request s). split; [reflexivity |]. intros w.
    destruct s;
      [apply respondWith_CacheFirst | apply respondWith_NetworkFirst
       | apply respondWith_replied].
Qed.


End ListenerFacts.

(** ** Deferred sync *)

Section SyncFacts.

Variable resolveURL : string -> string.
Variable net : nat -> NetRequest -> option Response.
Variable Item : Type.
Variable JSON_stringify : Item -> string.

(** The POST that carries one item to an endpoint. *)
Let post_of (endpoint : string) (x : Item) : NetRequest :=
  post_json resolveURL endpoint (JSON_stringify x).

(** The loop of sw.js:276-282 and 309-315. *)
Let post_each (endpoint : string) (items : list Item) : Async unit :=
  for_of items (fun x => fetch net (post_of endpoint x);; mret tt).

Let with_sent (w : World) (rqs : list NetRequest) : World :=
  mkWorld (caches w) (sent w ++ rqs) (controlled w) (posted w) (skippedWaiting w).

Lemma with_sent_nil (w : World) : with_sent w [] = w.
Proof. destruct w. unfold with_sent. simpl. rewrite app_nil_r. reflexivity. Qed.

Lemma post_each_all (endpoint : string) (items : list Item) (w : World) :
  (forall i x, items !! i = Some x ->
     net (length (sent w) + i) (post_of endpoint x) <> None) ->
  post_each endpoint items w
  = (Fulfilled tt, with_sent w (map (post_of endpoint) items)).
Proof.
  revert w. induction items as [|x items IH]; intros w Hok.
  - simpl. rewrite with_sent_nil. reflexivity.
  - unfold post_each in *. cbn [for_of]. async_unfold.
    pose proof (Hok 0 x eq_refl) as H0. rewrite Nat.add_0_r in H0.
    destruct (net (length (sent w)) (post_of endpoint x)) as [r |];
      [| contradiction].
    rewrite IH.
    + unfold with_sent. world_simpl. cbn [map]. rewrite <- app_assoc. reflexivity.
    + intros i y Hy. world_simpl. rewrite length_app. cbn [length].
      replace (length (sent w) + 1 + i) with (length (sent w) + S i) by lia.
      apply Hok. exact Hy.
Qed.

Lemma post_each_abort (endpoint : string) (pre : list Item) (x : Item)
    (rest : list Item) (w : World) :
  (forall i y, pre !! i = Some y ->
     net (length (sent w) + i) (post_of endpoint y) <> None) ->
  net (length (sent w) + length pre) (post_of endpoint x) = None ->
  post_each endpoint (pre ++ x :: rest) w
  = (Rejected NetworkError,
     with_sent w (map (post_of endpoint) pre ++ [post_of endpoint x])).
Proof.
  revert w. induction pre as [|y pre IH]; intros w Hok Hfail.
  - unfold post_each. cbn [app for_of length map]. async_unfold.
    rewrite Nat.add_0_r in Hfail. rewrite Hfail. reflexivity.
  - unfold post_each in *. cbn [app for_of]. async_unfold.
    pose proof (Hok 0 y eq_refl) as H0. rewrite Nat.add_0_r in H0.
    destruct (net (length (sent w)) (post_of endpoint y)) as [r |];
      [| contradiction].
    rewrite IH.
    + unfold with_sent. world_simpl. cbn [map app]. rewrite <- app_assoc.
      reflexivity.
    + intros i z Hz. world_simpl. rewrite length_app. cbn [length].
      replace (length (sent w) + 1 + i) with (length (sent w) + S i) by lia.
      apply Hok. exact Hz.
    + world_simpl. rewrite length_app. cbn [length].
      replace (length (sent w) + 1 + length pre)
        with (length (sent w) + length (y :: pre)) by (cbn [length]; lia).
      exact Hfail.
Qed.

Lemma post_each_cons (endpoint : string) (x : Item) (items : list Item) (w : World) :
  post_each endpoint (x :: items) w =
  match net (length (sent w)) (post_of endpoint x) with
  | Some _ => post_each endpoint items (log_sent (post_of endpoint x) w)
  | None => (Rejected NetworkError, log_sent (post_of endpoint x) w)
  end.
Proof.
  unfold post_each. cbn [for_of]. unfold mbind, Async_bind, fetch.
  destruct (net (length (sent w)) (post_of endpoint x)); reflexivity.
Qed.

Lemma post_each_keeps (endpoint : string) (items : list Item) (w : World) :
  posted (snd (post_each endpoint items w)) = posted w /\
  controlled (snd (post_each endpoint items w)) = controlled w /\
  caches (snd (post_each endpoint items w)) = caches w.
Proof.
  revert w. induction items as [|x items IH]; intros w.
  - repeat split.
  - rewrite post_each_cons.
    destruct (net (length (sent w)) (post_of endpoint x)) as [r |].
    + destruct (IH (log_sent (post_of endpoint x) w)) as (H1 & H2 & H3).
      rewrite H1, H2, H3. repeat split.
    + repeat split.
Qed.

Lemma notify_all (m : Message) (clients : list string) (w : World) :
  for_of clients (fun client => postMessage client m) w
  = (Fulfilled tt,
     mkWorld (caches w) (sent w) (controlled w)
       (posted w ++ map (fun client => (client, m)) clients) (skippedWaiting w)).
Proof.
  revert w. induction clients as [|c clients IH]; intros w.
  - simpl. rewrite app_nil_r. destruct w; reflexivity.
  - cbn [for_of]. unfold mbind, Async_bind.
    change (postMessage c m w) with (Fulfilled tt, log_posted c m w).
    cbv beta iota. rewrite IH.
    world_simpl. cbn [map]. rewrite <- app_assoc. reflexivity.
Qed.

Lemma syncMonasteryData_from_eq (items : list Item) (w : World) :
  sync_from resolveURL net Item JSON_stringify Visits items w =
  match post_each (endpoint Visits) items w with
  | (Fulfilled _, w') =>
      (Fulfilled tt,
       snd (for_of (controlled w')
              (fun client =>
                 postMessage client (mkMessage "SYNC_COMPLETE" (length items))) w'))
  | (Rejected _, w') => (Fulfilled tt, w')
  end.
Proof.
  change (sync_from resolveURL net Item JSON_stringify Visits items w)
    with (match
            match post_each (endpoint Visits) items w with
            | (Fulfilled a, w') =>
                (fun _ : unit =>
                   detach (clients ← clients_matchAll;
                           for_of clients (fun client =>
                             postMessage client
                               (mkMessage "SYNC_COMPLETE" (length items))))) a w'
            | (Rejected e, w') => (Rejected e, w')
            end
          with
          | (Fulfilled a, w') => (Fulfilled a, w')
          | (Rejected e, w') => (Fulfilled tt, w')
          end).
  destruct (post_each (endpoint Visits) items w) as [[[] | e] w']; reflexivity.
Qed.

Lemma syncChatMessages_from_eq (items : list Item) (w : World) :
  sync_from resolveURL net Item JSON_stringify ChatMessages items w =
  match post_each (endpoint ChatMessages) items w with
  | (Fulfilled _, w') => (Fulfilled tt, w')
  | (Rejected _, w') => (Fulfilled tt, w')
  end.
Proof.
  change (sync_from resolveURL net Item JSON_stringify ChatMessages items w)
    with (match post_each (endpoint ChatMessages) items w with
          | (Fulfilled a, w') => (Fulfilled a, w')
          | (Rejected e, w') => (Fulfilled tt, w')
          end).
  destruct (post_each (endpoint ChatMessages) items w) as [[[] | e] w']; reflexivity.
Qed.

(** A batch whose POSTs all succeed: the visits are announced to every
    controlled client, with their number. *)
Lemma syncMonasteryData_notifies (items : list Item) (w : World) :
  (forall i x, items !! i = Some x ->
     net (length (sent w) + i) (post_of (endpoint Visits) x) <> None) ->
  let out := sync_from resolveURL net Item JSON_stringify Visits items w in
  fst out = Fulfilled tt /\
  sent (snd out) = (sent w ++ map (post_of (endpoint Visits)) items)%list /\
  posted (snd out)
  = (posted w ++
     map (fun client => (client, mkMessage "SYNC_COMPLETE" (length items)))
       (controlled w))%list.
Proof.
  intros Hok out. subst out.
  rewrite syncMonasteryData_from_eq, (post_each_all (endpoint Visits) items w Hok).
  rewrite notify_all. repeat split.
Qed.

(** C8 (as amended).  A sync function sends its pending items one after
    the other, in the order of the list, each as a POST of the item's JSON
    to the endpoint of the queue, and each POST is made only once the POSTs
    before it have settled (the [i]-th item meets the network that [i]
    settled requests have left).  Only a POST whose fetch rejects stops
    the batch: when the items before [x] are answered and the POST of [x]
    rejects, the items up to and including [x] are sent, in order, nothing
    after [x] is, and no client is notified.  A POST that is answered does
    not stop it, whatever the status of the answer: when every POST is
    answered, be it with an error status, exactly the items are sent, in
    order, and the batch of visits is announced to every client as synced.
    The promise fulfils in every case. *)
Theorem sync_aborts_at_first_failure (q : Queue) (items : list Item) (w : World) :
  let post := fun x : Item =>
    mkNetRequest "POST"
      (resolveURL match q with
                  | Visits => "/api/monastery-visits"
                  | ChatMessages => "/api/chat-messages"
                  end)
      [("Content-Type", "application/json")] (JSON_stringify x) in
  let out := sync_from resolveURL net Item JSON_stringify q items w in
  fst out = Fulfilled tt /\
  ((forall i x, items !! i = Some x ->
      net (length (sent w) + i) (post x) <> None) ->
   sent (snd out) = (sent w ++ map post items)%list /\
   posted (snd out)
   = (posted w ++
      match q with
      | Visits =>
          map (fun client => (client, mkMessage "SYNC_COMPLETE" (length items)))
            (controlled w)
      | ChatMessages => []
      end)%list) /\
  (forall (pre : list Item) (x : Item) (rest : list Item),
     items = (pre ++ x :: rest)%list ->
     (forall i y, pre !! i = Some y ->
        net (length (sent w) + i) (post y) <> None) ->
     net (length (sent w) + length pre) (post x) = None ->
     sent (snd out) = (sent w ++ map post pre ++ [post x])%list /\
     posted (snd out) = posted w).
Proof.
  intros post out. subst out.
  assert (Hpost : post = post_of (endpoint q)) by (destruct q; reflexivity).
  rewrite Hpost. clear Hpost post.
  split; [| split].
  - destruct q.
    + rewrite syncMonasteryData_from_eq.
      destruct (post_each (endpoint Visits) items w) as [[[] | e] w'];
        reflexivity.
    + rewrite syncChatMessages_from_eq.
      destruct (post_each (endpoint ChatMessages) items w) as [[[] | e] w'];
        reflexivity.
  - intros Hok. pose proof (post_each_all (endpoint q) items w Hok) as Hall.
    destruct q.
    + rewrite syncMonasteryData_from_eq, Hall, notify_all.
      split; reflexivity.
    + rewrite syncChatMessages_from_eq, Hall. cbn [snd posted with_sent].
      rewrite app_nil_r. split; reflexivity.
  - intros pre x rest -> Hok Hfail.
    pose proof (post_each_abort (endpoint q) pre x rest w Hok Hfail) as Hab.
    destruct q.
    + rewrite syncMonasteryData_from_eq, Hab. split; reflexivity.
    + rewrite syncChatMessages_from_eq, Hab. split; reflexivity.
Qed.

(** C9 (where the code departs from the claim).  The sync listener hands
    the chat tag to [syncChatMessages], and that function posts no message
    to any client, whatever its pending items are and however their POSTs
    end: a successful chat batch is never announced. *)
Theorem syncChatMessages_never_notifies (items : list Item) (w : World) :
  onsync resolveURL net Item JSON_stringify (sync_tag ChatMessages)
  = Some (syncChatMessages resolveURL net Item JSON_stringify) /\
  posted (snd (sync_from resolveURL net Item JSON_stringify ChatMessages items w))
  = posted w.
Proof.
  split; [reflexivity |].
  destruct (post_each_keeps (endpoint ChatMessages) items w) as (Hp & _ & _).
  rewrite syncChatMessages_from_eq.
  destruct (post_each (endpoint ChatMessages) items w) as [[[] | e] w']; exact Hp.
Qed.

End SyncFacts.

(** ** Bulk population *)

Section PutEachFacts.

Lemma distinct_NoDup (l : list string) : distinct l = true <-> NoDup l.
Proof.
  induction l as [|x l IH]; cbn [distinct].
  - split; [intros _; constructor | reflexivity].
  - rewrite andb_true_iff, negb_true_iff, IH. split.
    + intros [Hx Hl]. constructor; [| exact Hl].
      intros Hin. apply list_elem_of_In in Hin. assert (He : existsb (String.eqb x) l = true).
      { apply existsb_exists. exists x. split; [exact Hin | apply String.eqb_refl]. }
      congruence.
    + intros Hnd. inversion Hnd as [| ? ? Hx Hl]; subst. split; [| exact Hl].
      destruct (existsb (String.eqb x) l) eqn:He; [| reflexivity].
      apply existsb_exists in He. destruct He as (y & Hy & Hxy).
      apply String.eqb_eq in Hxy. subst y. apply list_elem_of_In in Hy.
      contradiction.
Qed.

Lemma region_put_in (n name u : string) (r : Response) (cs : CacheStorage) :
  region n cs <> None -> region n (put_in name u r cs) <> None.
Proof.
  induction cs as [|[m d] cs IH]; simpl; [congruence |].
  destruct (String.eqb_spec m name) as [-> | Hm]; simpl;
    match goal with
    | |- context [String.eqb ?a n] => destruct (String.eqb a n)
    end; auto; discriminate.
Qed.

Lemma put_each_other (name n u : string) (rs : list (string * Response))
    (cs : CacheStorage) :
  ~ In u (map fst rs) ->
  match_in n u (put_each name rs cs) = match_in n u cs.
Proof.
  revert cs. induction rs as [|[v r] rs IH]; intros cs Hnin; [reflexivity |].
  unfold put_each in *. cbn [fold_left]. rewrite IH.
  - apply match_in_put_in_ne. intros [= _ ->]. apply Hnin. left. reflexivity.
  - intros Hin. apply Hnin. right. exact Hin.
Qed.

(** With one response per URL, each is what its URL holds afterwards. *)
Lemma put_each_stored (name u : string) (r : Response)
    (rs : list (string * Response)) (cs : CacheStorage) :
  NoDup (map fst rs) ->
  region name cs <> None ->
  In (u, r) rs ->
  match_in name u (put_each name rs cs) = Some r.
Proof.
  revert cs. induction rs as [|[v r'] rs IH]; intros cs Hnd Hreg Hin;
    [destruct Hin |].
  cbn [map fst] in Hnd. inversion Hnd as [| ? ? Hv Hrs]; subst.
  rewrite list_elem_of_In in Hv.
  change (put_each name ((v, r') :: rs) cs)
    with (put_each name rs (put_in name v r' cs)).
  destruct Hin as [[= -> ->] | Hin].
  - rewrite (put_each_other name name u rs _ Hv).
    apply match_in_put_in_eq. exact Hreg.
  - apply IH; [exact Hrs | apply region_put_in; exact Hreg | exact Hin].
Qed.

Lemma In_put_in_other (n name u : string) (d : Cache) (r : Response)
    (cs : CacheStorage) :
  In (n, d) (put_in name u r cs) -> n <> name -> In (n, d) cs.
Proof.
  induction cs as [|[m e] cs IH]; simpl; [tauto |].
  destruct (String.eqb_spec m name) as [-> | Hm]; simpl.
  - intros [[= <- _] | Hin] Hne; [contradiction | right; exact Hin].
  - intros [Heq | Hin] Hne; [left; exact Heq | right; apply IH; assumption].
Qed.

Lemma In_put_each_other (n name : string) (d : Cache)
    (rs : list (string * Response)) (cs : CacheStorage) :
  In (n, d) (put_each name rs cs) -> n <> name -> In (n, d) cs.
Proof.
  unfold put_each. revert cs. induction rs as [|[u r] rs IH]; intros cs;
    cbn [fold_left]; [tauto |].
  intros Hin Hne. apply (In_put_in_other n name u d r); [| exact Hne].
  apply IH; assumption.
Qed.

Lemma match_in_put_each_elsewhere (n name u : string)
    (rs : list (string * Response)) (cs : CacheStorage) :
  n <> name -> match_in n u (put_each name rs cs) = match_in n u cs.
Proof.
  intros Hne. unfold put_each. revert cs.
  induction rs as [|[v r] rs IH]; intros cs; cbn [fold_left]; [reflexivity |].
  rewrite IH. apply match_in_put_in_ne. congruence.
Qed.

End PutEachFacts.

(** ** Install *)

Section InstallFacts.

Variable resolveURL : string -> string.
Variable net : nat -> NetRequest -> option Response.

Let get_of (u : string) : NetRequest :=
  mkNetRequest "GET" (resolveURL u) [] EmptyString.

Lemma gathered_answered (n : nat) (urls : list string) :
  (exists rs, gathered resolveURL net n urls = Some rs) <->
  answered_addable resolveURL net n urls.
Proof.
  revert n. induction urls as [|u urls IH]; intros n.
  - split; [intros _ i u Hi; discriminate Hi | intros _; exists []; reflexivity].
  - cbn [gathered]. split.
    + intros [rs Hrs] i v Hi.
      destruct (net n (mkNetRequest "GET" (resolveURL u) [] EmptyString))
        as [r |] eqn:Hn; [| discriminate].
      destruct (addable r) eqn:Hok; [| discriminate].
      destruct (gathered resolveURL net (S n) urls) as [rs' |] eqn:Hg;
        [| discriminate].
      destruct i as [|i].
      * injection Hi as <-. exists r. rewrite Nat.add_0_r.
        split; [assumption | apply addable_spec; assumption].
      * replace (n + S i) with (S n + i) by lia.
        apply (proj1 (IH (S n))); [exists rs'; exact Hg | exact Hi].
    + intros Hall.
      destruct (Hall 0 u eq_refl) as (r & Hr & Hok).
      apply addable_spec in Hok.
      rewrite Nat.add_0_r in Hr. rewrite Hr, Hok.
      destruct (proj2 (IH (S n))) as [rs' Hrs'].
      { intros i v Hi. replace (S n + i) with (n + S i) by lia.
        apply Hall. exact Hi. }
      rewrite Hrs'. eexists. reflexivity.
Qed.

(** What is gathered is, URL by URL, what the network answered. *)
Lemma gathered_entries (n : nat) (urls : list string) (rs : list (string * Response)) :
  gathered resolveURL net n urls = Some rs ->
  map fst rs = map resolveURL urls /\
  (forall i u r, urls !! i = Some u ->
     net (n + i) (get_of u) = Some r -> In (resolveURL u, r) rs).
Proof.
  revert n rs. induction urls as [|u urls IH]; intros n rs; cbn [gathered].
  - intros [= <-]. split; [reflexivity | intros i u r Hi; discriminate Hi].
  - fold (get_of u).
    destruct (net n (get_of u)) as [r |] eqn:Hn; [| discriminate].
    destruct (addable r); [| discriminate].
    destruct (gathered resolveURL net (S n) urls) as [rs' |] eqn:Hg;
      [| discriminate].
    intros [= <-]. destruct (IH (S n) rs' Hg) as [Hfst Hall]. split.
    + cbn [map fst]. rewrite Hfst. reflexivity.
    + intros [|i] v r' Hi Hr.
      * injection Hi as <-. rewrite Nat.add_0_r, Hn in Hr. injection Hr as <-.
        left. reflexivity.
      * right. apply (Hall i); [exact Hi |].
        replace (S n + i) with (n + S i) by lia. exact Hr.
Qed.

Lemma addAll_result_succeeds (n : nat) (urls : list string) :
  (exists rs, addAll_result resolveURL net n urls = Some rs) <->
  addAll_succeeds resolveURL net n urls.
Proof.
  unfold addAll_result, addAll_succeeds. split.
  - intros [rs Hrs].
    destruct (forallb (fun u => http_url (resolveURL u)) urls) eqn:Hf;
      [| discriminate].
    destruct (gathered resolveURL net n urls) as [rs' |] eqn:Hg; [| discriminate].
    destruct (distinct (map fst rs')) eqn:Hd; [| discriminate].
    split; [| split].
    + intros u Hu. apply http_url_spec.
      exact (proj1 (forallb_forall _ _) Hf u Hu).
    + rewrite <- (proj1 (gathered_entries _ _ _ Hg)). apply distinct_NoDup, Hd.
    + apply gathered_answered. exists rs'. exact Hg.
  - intros (Hhttp & Hnd & Hans).
    assert (Hf : forallb (fun u => http_url (resolveURL u)) urls = true).
    { apply forallb_forall. intros u Hu. apply http_url_spec, Hhttp, Hu. }
    rewrite Hf. apply gathered_answered in Hans. destruct Hans as [rs Hg].
    rewrite Hg. rewrite <- (proj1 (gathered_entries _ _ _ Hg)) in Hnd.
    apply distinct_NoDup in Hnd. rewrite Hnd. exists rs. reflexivity.
Qed.

Lemma addAll_result_None (n : nat) (urls : list string) :
  ~ addAll_succeeds resolveURL net n urls ->
  addAll_result resolveURL net n urls = None.
Proof.
  intros Hno. destruct (addAll_result resolveURL net n urls) as [rs |] eqn:Hr;
    [| reflexivity].
  exfalso. apply Hno, addAll_result_succeeds. exists rs. exact Hr.
Qed.

(** What a bulk population stores: for each URL the response that its
    fetch was answered with, and nothing under any other URL. *)
Lemma addAll_result_stored (name : string) (n : nat) (urls : list string)
    (rs : list (string * Response)) (cs : CacheStorage)
    (i : nat) (u : string) (r : Response) :
  addAll_result resolveURL net n urls = Some rs ->
  region name cs <> None ->
  urls !! i = Some u ->
  net (n + i) (get_of u) = Some r ->
  match_in name (resolveURL u) (put_each name rs cs) = Some r.
Proof.
  unfold addAll_result. intros Hrs Hreg Hi Hr.
  destruct (forallb (fun u => http_url (resolveURL u)) urls); [| discriminate].
  destruct (gathered resolveURL net n urls) as [rs' |] eqn:Hg; [| discriminate].
  destruct (distinct (map fst rs')) eqn:Hd; [| discriminate].
  injection Hrs as <-. destruct (gathered_entries _ _ _ Hg) as [_ Hin].
  apply put_each_stored;
    [apply distinct_NoDup, Hd | exact Hreg | exact (Hin i u r Hi Hr)].
Qed.

Lemma addAll_result_other (name m v : string) (n : nat) (urls : list string)
    (rs : list (string * Response)) (cs : CacheStorage) :
  addAll_result resolveURL net n urls = Some rs ->
  ~ In v (map resolveURL urls) ->
  match_in m v (put_each name rs cs) = match_in m v cs.
Proof.
  unfold addAll_result. intros Hrs Hv.
  destruct (forallb (fun u => http_url (resolveURL u)) urls); [| discriminate].
  destruct (gathered resolveURL net n urls) as [rs' |] eqn:Hg; [| discriminate].
  destruct (distinct (map fst rs')); [| discriminate].
  injection Hrs as <-. apply put_each_other.
  rewrite (proj1 (gathered_entries _ _ _ Hg)). exact Hv.
Qed.

Lemma fetch_ok_eq (u : string) (w : World) :
  fetch_ok resolveURL net u w =
  match net (length (sent w)) (get_of u) with
  | Some r =>
      if addable r then (Fulfilled (resolveURL u, r), log_sent (get_of u) w)
      else (Rejected BadResponse, log_sent (get_of u) w)
  | None => (Rejected NetworkError, log_sent (get_of u) w)
  end.
Proof.
  unfold fetch_ok, get_of. async_unfold.
  destruct (net (length (sent w)) _) as [r |]; [| reflexivity].
  destruct (addable r); reflexivity.
Qed.

Lemma mapM_cons_eq {A B : Type} (f : A -> Async B) (x : A) (l : list A) (w : World) :
  mapM f (x :: l) w =
  match f x w with
  | (Fulfilled y, w1) =>
      match mapM f l w1 with
      | (Fulfilled k, w2) => (Fulfilled (y :: k), w2)
      | (Rejected e, w2) => (Rejected e, w2)
      end
  | (Rejected e, w1) => (Rejected e, w1)
  end.
Proof.
  cbn [mapM]. unfold mbind, Async_bind.
  destruct (f x w) as [[y | e] w1]; [| reflexivity].
  destruct (mapM f l w1) as [[k | e] w2]; reflexivity.
Qed.

(** The fetches of a bulk population touch nothing but the log of requests:
    they gather the responses or reject. *)
Lemma mapM_fetch_ok (urls : list string) (w : World) :
  exists w' : World,
    caches w' = caches w /\ skippedWaiting w' = skippedWaiting w /\
    match gathered resolveURL net (length (sent w)) urls with
    | Some rs => mapM (fetch_ok resolveURL net) urls w = (Fulfilled rs, w')
    | None => exists e, mapM (fetch_ok resolveURL net) urls w = (Rejected e, w')
    end.
Proof.
  revert w. induction urls as [|u urls IH]; intros w.
  - exists w. repeat split.
  - rewrite mapM_cons_eq, fetch_ok_eq. cbn [gathered]. fold (get_of u).
    destruct (net (length (sent w)) (get_of u)) as [r |];
      [| exists (log_sent (get_of u) w); repeat split; eexists; reflexivity].
    destruct (addable r);
      [| exists (log_sent (get_of u) w); repeat split; eexists; reflexivity].
    destruct (IH (log_sent (get_of u) w)) as (w' & Hc & Hs & Hm).
    exists w'. split; [exact Hc |]. split; [exact Hs |].
    revert Hm. world_simpl. rewrite length_app. cbn [length].
    rewrite Nat.add_1_r.
    destruct (gathered resolveURL net (S (length (sent w))) urls) as [rs |].
    + intros ->. reflexivity.
    + intros [e ->]. exists e. reflexivity.
Qed.

Lemma cache_addAll_run (name : string) (urls : list string) (w : World) :
  exists w0 : World,
    caches w0 = caches w /\ skippedWaiting w0 = skippedWaiting w /\
    match addAll_result resolveURL net (length (sent w)) urls with
    | Some rs =>
        cache_addAll resolveURL net name urls w
        = (Fulfilled tt, set_caches (put_each name rs) w0)
    | None =>
        exists e, cache_addAll resolveURL net name urls w = (Rejected e, w0)
    end.
Proof.
  unfold cache_addAll, addAll_result.
  destruct (forallb (fun u => http_url (resolveURL u)) urls).
  - destruct (mapM_fetch_ok urls w) as (w0 & Hc & Hs & Hm).
    exists w0. split; [exact Hc |]. split; [exact Hs |].
    set (gather := mapM (fetch_ok resolveURL net) urls) in *.
    unfold mbind, Async_bind.
    destruct (gathered resolveURL net (length (sent w)) urls) as [rs |].
    + rewrite Hm. unfold put_all_distinct.
      destruct (distinct (map fst rs)); [reflexivity |].
      eexists. reflexivity.
    + destruct Hm as [e Hm]. rewrite Hm. exists e. reflexivity.
  - exists w. split; [reflexivity |]. split; [reflexivity |].
    eexists. reflexivity.
Qed.

Lemma install_run (w : World) :
  exists w0 : World,
    caches w0 = open_region STATIC_CACHE (caches w) /\
    skippedWaiting w0 = skippedWaiting w /\
    match addAll_result resolveURL net (length (sent w)) STATIC_ASSETS with
    | Some rs =>
        install resolveURL net w
        = (Fulfilled tt,
           set_skippedWaiting (set_caches (put_each STATIC_CACHE rs) w0))
    | None => install resolveURL net w = (Fulfilled tt, w0)
    end.
Proof.
  destruct (cache_addAll_run STATIC_CACHE STATIC_ASSETS
              (set_caches (open_region STATIC_CACHE) w)) as (w0 & Hc & Hs & Hrun).
  exists w0. split; [exact Hc |]. split; [exact Hs |].
  revert Hrun. world_simpl. intros Hrun.
  unfold install, try_catch, mbind, Async_bind, caches_open, skipWaiting.
  cbv beta iota.
  destruct (addAll_result resolveURL net (length (sent w)) STATIC_ASSETS) as [rs |].
  - rewrite Hrun. reflexivity.
  - destruct Hrun as [e Hrun]. rewrite Hrun. reflexivity.
Qed.

(** C4 (as amended).  The promise of the install listener always fulfils,
    so that the install is never reported as failed.  The population of the
    static region is all or nothing.  When it goes through (the listed
    assets resolve to URLs of http or https, no two to the same, and each is
    answered with a response that is [ok], has not the status 206 and does
    not vary on [*]), every asset has the response that its fetch was
    answered with stored under its URL in the static region, no other entry
    changes, and skip-waiting is signalled.  When it does not, no entry of
    the storage changes and skip-waiting is not signalled. *)
Theorem install_settles (w : World) :
  let out := install resolveURL net w in
  fst out = Fulfilled tt /\
  (addAll_succeeds resolveURL net (length (sent w)) STATIC_ASSETS ->
   skippedWaiting (snd out) = true /\
   (forall (i : nat) (asset : string) (r : Response),
      STATIC_ASSETS !! i = Some asset ->
      net (length (sent w) + i)
        (mkNetRequest "GET" (resolveURL asset) [] EmptyString) = Some r ->
      match_in STATIC_CACHE (resolveURL asset) (caches (snd out)) = Some r) /\
   (forall n u : string,
      ~ In u (map resolveURL STATIC_ASSETS) ->
      match_in n u (caches (snd out)) = match_in n u (caches w)) /\
   (forall n u : string,
      n <> STATIC_CACHE ->
      match_in n u (caches (snd out)) = match_in n u (caches w))) /\
  (~ addAll_succeeds resolveURL net (length (sent w)) STATIC_ASSETS ->
   skippedWaiting (snd out) = skippedWaiting w /\
   forall n u : string, match_in n u (caches (snd out)) = match_in n u (caches w)).
Proof.
  intros out. subst out.
  destruct (install_run w) as (w0 & Hc & Hs & Hrun).
  destruct (addAll_result resolveURL net (length (sent w)) STATIC_ASSETS)
    as [rs |] eqn:Hres; rewrite Hrun; world_simpl; rewrite Hc.
  - split; [reflexivity |]. split.
    + intros _. split; [reflexivity |]. split; [| split].
      * intros i asset r Hi Hr.
        apply (addAll_result_stored _ _ _ _ _ i asset r Hres);
          [apply region_open_region | exact Hi | exact Hr].
      * intros n u Hu. rewrite (addAll_result_other _ _ _ _ _ _ _ Hres Hu).
        apply match_in_open_region.
      * intros n u Hn. rewrite match_in_put_each_elsewhere by exact Hn.
        apply match_in_open_region.
    + intros Hno. exfalso. apply Hno, addAll_result_succeeds. eauto.
  - split; [reflexivity |]. split.
    + intros Hall. apply addAll_result_succeeds in Hall.
      destruct Hall as [rs Hrs]. congruence.
    + intros _. split; [exact Hs |]. intros n u. apply match_in_open_region.
Qed.

End InstallFacts.

(** * The worker on concrete inputs *)

Section Examples.

Import Fixture.

Example route_same_origin :
  route origin_of origin (get "https://techkkim.example/api/monastery/7" EmptyString)
  = Some CacheFirst.
Proof. reflexivity. Qed.

(** A cross-origin API URL: the slash alone sends it to cache-first. *)
Lemma route_cross_origin_api :
  route origin_of origin (get "https://api.example.org/api/monastery/7" EmptyString)
  = Some CacheFirst.
Proof.
  apply route_slash; [reflexivity |].
  exists "https:", "/api.example.org/api/monastery/7". reflexivity.
Defined.

Example route_post :
  route origin_of origin (mkRequest "POST" "https://techkkim.example/api/chat-messages" EmptyString)
  = None.
Proof. reflexivity. Qed.

(** Without a slash the patterns decide; extensions are case-sensitive. *)
Example route_upper_case_extension :
  route origin_of origin (get "blob:photo.png" "image") = Some NetworkFirst /\
  route origin_of origin (get "blob:photo.PNG" "image") = Some StaleWhileRevalidate.
Proof. vm_compute. split; reflexivity. Qed.


(** Fully offline, with the first asset already failing, the install
    promise fulfils all the same: nothing is stored, skip-waiting is not
    signalled, and the install is not reported as failed. *)
Lemma install_fulfils_offline :
  let out := install resolveURL offline fresh in
  In "/" STATIC_ASSETS /\
  offline 0 (mkNetRequest "GET" (resolveURL "/") [] EmptyString) = None /\
  fst out = Fulfilled tt /\
  skippedWaiting (snd out) = false /\
  match_in STATIC_CACHE (resolveURL "/") (caches (snd out)) = None.
Proof. vm_compute. repeat split. left. reflexivity. Qed.

(** The listed assets, resolved against the worker's location, are nine
    different URLs of https. *)
Lemma static_assets_resolved :
  (forall u : string, In u STATIC_ASSETS -> http_or_https (resolveURL u)) /\
  NoDup (map resolveURL STATIC_ASSETS).
Proof.
  split.
  - intros u Hu. apply http_url_spec. revert u Hu. apply forallb_forall.
    vm_compute. reflexivity.
  - apply distinct_NoDup. vm_compute. reflexivity.
Qed.

(** With every asset answered by a 200, the install stores each answer. *)
Lemma install_settles_online :
  let out := install resolveURL (answering (page 200 "asset")) fresh in
  fst out = Fulfilled tt /\
  skippedWaiting (snd out) = true /\
  match_in STATIC_CACHE (resolveURL "/manifest.json") (caches (snd out))
  = Some (page 200 "asset").
Proof.
  destruct (install_settles resolveURL (answering (page 200 "asset")) fresh)
    as (Hf & Hok & _).
  split; [exact Hf |].
  destruct Hok as (Hs & Hall & _).
  - destruct static_assets_resolved as [Hhttp Hnd].
    split; [exact Hhttp |]. split; [exact Hnd |].
    intros i u _. exists (page 200 "asset").
    split; [reflexivity | apply addable_spec; reflexivity].
  - split; [exact Hs |]. exact (Hall 2 "/manifest.json" _ eq_refl eq_refl).
Defined.

(** One asset answered with a 206, a 2xx status: the install stores
    nothing and does not signal skip-waiting. *)
Example install_partial_content :
  let out := install resolveURL (answering (page 206 "part")) fresh in
  ok (page 206 "part") = true /\
  fst out = Fulfilled tt /\
  skippedWaiting (snd out) = false /\
  match_in STATIC_CACHE (resolveURL "/manifest.json") (caches (snd out)) = None.
Proof. vm_compute. repeat split. Qed.



(** Answered with status 200 and [Vary: *], the page goes to the caller
    and is not stored: the cache refuses it, and nobody waits for the put. *)
Example cacheFirst_vary_star_not_stored :
  let r := varying 200 "fresh" in
  let request := get "https://techkkim.example/visits" "document" in
  let out := cacheFirstStrategy (answering r) request fresh in
  fst out = Fulfilled r /\
  match_all (url request) (caches (snd out)) = None.
Proof. vm_compute. repeat split. Qed.

(** Offline, network-first serves the copy of the static region. *)
Lemma networkFirst_offline_stocked :
  fst (networkFirstStrategy offline (get lib EmptyString) stocked)
  = Fulfilled (page 200 "old").
Proof.
  destruct (networkFirstStrategy_offline offline (get lib EmptyString) stocked eq_refl)
    as (_ & H & _).
  apply H.
  exists [], STATIC_CACHE, {[ lib := page 200 "old" ]}, [(DYNAMIC_CACHE, ∅)].
  split; [reflexivity |]. split; [intros n d [] |]. vm_compute. reflexivity.
Defined.

(** The network has a fresher copy; the caller still gets the stale one. *)
Lemma staleWhileRevalidate_serves_stale :
  fst (respondWith (answering (page 200 "fresh")) (get lib EmptyString)
         StaleWhileRevalidate warm)
  = Fulfilled (Some (page 200 "stale")).
Proof.
  assert (Hc : match_in DYNAMIC_CACHE (url (get lib EmptyString)) (caches warm)
               = Some (page 200 "stale")) by (vm_compute; reflexivity).
  destruct (staleWhileRevalidate_hit (answering (page 200 "fresh"))
              (get lib EmptyString) warm (page 200 "stale") Hc)
    as (background & w' & _ & _ & _ & H).
  exact H.
Defined.

(** Three pending visits, the second POST rejecting: the first two are
    sent, in order, the third never is, and no client hears of it. *)
Lemma sync_three_items_second_fails :
  let out :=
    sync_from resolveURL (second_fails (page 201 EmptyString)) string id Visits
      ["one"; "two"; "three"] stocked in
  let post := fun b : string =>
    mkNetRequest "POST" "https://techkkim.example/api/monastery-visits"
      [("Content-Type", "application/json")] b in
  fst out = Fulfilled tt /\
  sent (snd out) = [post "one"; post "two"] /\
  posted (snd out) = [].
Proof.
  destruct (sync_aborts_at_first_failure resolveURL
              (second_fails (page 201 EmptyString)) string id Visits
              ["one"; "two"; "three"] stocked)
    as (Hf & _ & Habort).
  split; [exact Hf |].
  apply (Habort ["one"] "two" ["three"] eq_refl).
  - intros [|i] y Hy; [discriminate | destruct i; discriminate Hy].
  - reflexivity.
Defined.

(** Three pending visits, the second POST refused with a 500: the batch
    goes on, the third visit is sent, and the client is told that three
    visits were synced. *)
Lemma sync_three_items_second_refused :
  let net := second_refused (page 201 EmptyString) in
  let out :=
    sync_from resolveURL net string id Visits ["one"; "two"; "three"] stocked in
  let post := fun b : string =>
    mkNetRequest "POST" "https://techkkim.example/api/monastery-visits"
      [("Content-Type", "application/json")] b in
  net 1 (post "two") = Some (page 500 "refused") /\
  ok (page 500 "refused") = false /\
  fst out = Fulfilled tt /\
  sent (snd out) = [post "one"; post "two"; post "three"] /\
  posted (snd out) = [("client-1", mkMessage "SYNC_COMPLETE" 3)].
Proof. vm_compute. repeat split. Qed.

(** At the failing input of C9: the chat tag, a client under control and a
    network that answers; the visits' tag announces its (empty) batch, the
    chat tag announces nothing. *)
Example sync_chat_silent :
  let online := answering (page 200 EmptyString) in
  (exists sync, onsync resolveURL online string id "background-chat-sync" = Some sync /\
                fst (sync stocked) = Fulfilled tt /\ posted (snd (sync stocked)) = []) /\
  (exists sync, onsync resolveURL online string id "background-monastery-sync" = Some sync /\
                posted (snd (sync stocked)) = [("client-1", mkMessage "SYNC_COMPLETE" 0)]).
Proof. split; eexists; split; try reflexivity. split; reflexivity. Qed.


End Examples.

(** * How the operations compose *)

(** ** Entries across the regions *)

Section MoreStorageFacts.

Lemma In_open_region (n name : string) (d : Cache) (cs : CacheStorage) :
  In (n, d) (open_region name cs) -> In (n, d) cs \/ (n = name /\ d = ∅).
Proof.
  unfold open_region. destruct (region name cs); [left; assumption |].
  intros H. apply in_app_or in H. destruct H as [H | [[= <- <-] | []]];
    [left; exact H | right; split; reflexivity].
Qed.

(** When no other region has an entry for the URL, a put into the region
    [name] is what a lookup across all regions finds. *)
Lemma match_all_put_in_only (name u : string) (r : Response) (cs : CacheStorage) :
  (forall n d, In (n, d) cs -> n <> name -> d !! u = None) ->
  region name cs <> None ->
  match_all u (put_in name u r cs) = Some r.
Proof.
  induction cs as [|[m d] cs IH]; simpl; intros Ho Hreg; [congruence |].
  destruct (String.eqb_spec m name) as [-> | Hne]; simpl.
  - rewrite lookup_insert_eq. reflexivity.
  - rewrite (Ho m d) by auto. apply IH; [| exact Hreg].
    intros n e Hin. apply Ho. right. exact Hin.
Qed.

Lemma only_open_region (name u : string) (cs : CacheStorage) :
  (forall n d, In (n, d) cs -> n <> name -> d !! u = None) ->
  forall n d, In (n, d) (open_region name cs) -> n <> name -> d !! u = None.
Proof.
  intros Ho n d Hin Hne. apply In_open_region in Hin.
  destruct Hin as [Hin | [-> _]]; [exact (Ho n d Hin Hne) | contradiction].
Qed.

(** An entry of a region that comes before the first region named [name]
    hides whatever is put into [name]. *)
Lemma match_all_put_in_hidden (name u : string) (r c : Response)
    (pre post : CacheStorage) (n0 : string) (c0 : Cache) :
  (forall n d, In (n, d) pre -> n <> name /\ d !! u = None) ->
  n0 <> name ->
  c0 !! u = Some c ->
  match_all u (put_in name u r (open_region name (pre ++ (n0, c0) :: post)))
  = Some c.
Proof.
  intros Hpre Hn0 Hc0.
  assert (Hput : forall cs,
             match_all u (put_in name u r (pre ++ (n0, c0) :: cs)) = Some c).
  { intros cs. clear -Hpre Hn0 Hc0. induction pre as [|[m d] pre IH]; simpl.
    - destruct (String.eqb_spec n0 name) as [He | He]; [contradiction |]. simpl.
      rewrite Hc0. reflexivity.
    - destruct (Hpre m d) as [Hm Hd]; [left; reflexivity |].
      destruct (String.eqb_spec m name) as [He | He]; [contradiction |]. simpl.
      rewrite Hd. apply IH. intros n e Hin. apply Hpre. right. exact Hin. }
  unfold open_region. destruct (region name (pre ++ (n0, c0) :: post)).
  - apply Hput.
  - rewrite <- app_assoc. cbn [app]. apply Hput.
Qed.

Lemma match_in_match_all (name u : string) (r : Response) (cs : CacheStorage) :
  match_in name u cs = Some r -> exists r', match_all u cs = Some r'.
Proof.
  unfold match_in. induction cs as [|[m d] cs IH]; simpl; [discriminate |].
  destruct (d !! u) as [r' |] eqn:Hd; [intros _; exists r'; reflexivity |].
  destruct (String.eqb m name); [rewrite Hd; discriminate | exact IH].
Qed.

End MoreStorageFacts.

(** ** One request after another *)

Section Sequences.

Variable net1 net2 : nat -> NetRequest -> option Response.

(** Cache-first on a request that no region has an entry for, the network
    answering: when the response is stored (its status is 200 and the
    cache takes it), every later call is served that copy and touches
    neither the network nor the storage, whatever the network would answer;
    when it is not stored, the regions still have no entry for the request
    and the next call goes to the network again. *)
Theorem cacheFirst_stores_then_serves (request : Request) (w : World)
    (r : Response) :
  match_all (url request) (caches w) = None ->
  net1 (length (sent w)) (of_request request) = Some r ->
  let w1 := snd (cacheFirstStrategy net1 request w) in
  sent w1 = (sent w ++ [of_request request])%list /\
  (stores request r ->
   cacheFirstStrategy net2 request w1 = (Fulfilled r, w1)) /\
  (~ stores request r ->
   match_all (url request) (caches w1) = None /\
   fst (cacheFirstStrategy net2 request w1)
   = Fulfilled match net2 (length (sent w1)) (of_request request) with
               | Some r2 => r2
               | None => getOfflineFallback request
               end).
Proof.
  intros Hmiss Hnet w1. subst w1.
  rewrite (cacheFirstStrategy_eq net1), Hmiss, Hnet. cbn [snd].
  split; [| split].
  - destruct (cacheable request r); [| destruct (status r =? 200)%Z];
      reflexivity.
  - intros Hs. apply cacheable_spec in Hs. rewrite Hs.
    rewrite (cacheFirstStrategy_eq net2). world_simpl.
    rewrite match_all_put_in_only; [reflexivity | | apply region_open_region].
    apply only_open_region. intros n d Hin _.
    exact (proj1 (match_all_None _ _) Hmiss n d Hin).
  - intros Hs.
    destruct (cacheable_cases request r) as [[_ Hs'] | [-> _]];
      [contradiction |].
    assert (Hstill : match_all (url request)
                       (caches (if (status r =? 200)%Z
                                then set_caches (open_region STATIC_CACHE)
                                       (log_sent (of_request request) w)
                                else log_sent (of_request request) w)) = None).
    { destruct (status r =? 200)%Z; world_simpl;
        [rewrite match_all_open_region |]; exact Hmiss. }
    split; [exact Hstill |].
    rewrite (cacheFirstStrategy_eq net2), Hstill.
    destruct (net2 _ _); reflexivity.
Qed.

(** A response that the network gives is handed to the caller as it is,
    whatever its status: the offline fallback stands in for a fetch that
    fails, never for an error status. *)
Theorem network_response_passed_through (request : Request) (w : World)
    (r : Response) :
  net1 (length (sent w)) (of_request request) = Some r ->
  (match_all (url request) (caches w) = None ->
   fst (cacheFirstStrategy net1 request w) = Fulfilled r) /\
  fst (networkFirstStrategy net1 request w) = Fulfilled r /\
  (match_in DYNAMIC_CACHE (url request) (caches w) = None ->
   fst (respondWith net1 request StaleWhileRevalidate w) = Fulfilled (Some r)).
Proof.
  intros Hnet. split; [| split].
  - intros Hmiss. rewrite cacheFirstStrategy_eq, Hmiss, Hnet. reflexivity.
  - rewrite networkFirstStrategy_eq, Hnet. reflexivity.
  - intros Hmiss. rewrite respondWith_StaleWhileRevalidate, Hnet, Hmiss.
    reflexivity.
Qed.

(** Network-first, when no region other than the dynamic one holds an
    entry for the request: if the next fetch fails, the next call serves
    the response of this one when it was stored (its status is 200 and the
    cache takes it), and otherwise what the storage had before, the older
    entry of the request or else the offline fallback. *)
Theorem networkFirst_stores_then_serves_offline (request : Request) (w : World)
    (r : Response) :
  (forall n d, In (n, d) (caches w) -> n <> DYNAMIC_CACHE ->
     d !! url request = None) ->
  net1 (length (sent w)) (of_request request) = Some r ->
  let w1 := snd (networkFirstStrategy net1 request w) in
  net2 (length (sent w1)) (of_request request) = None ->
  (stores request r ->
   fst (networkFirstStrategy net2 request w1) = Fulfilled r) /\
  (~ stores request r ->
   fst (networkFirstStrategy net2 request w1)
   = Fulfilled match match_all (url request) (caches w) with
               | Some c => c
               | None => getOfflineFallback request
               end).
Proof.
  intros Ho Hnet w1. subst w1.
  rewrite (networkFirstStrategy_eq net1), Hnet. cbn [snd].
  destruct (cacheable_cases request r) as [[-> Hs] | [-> Hs]].
  - intros Hfail. split; [intros _ | contradiction].
    rewrite (networkFirstStrategy_eq net2), Hfail. world_simpl.
    rewrite match_all_put_in_only; [reflexivity | | apply region_open_region].
    apply only_open_region. exact Ho.
  - destruct (status r =? 200)%Z; intros Hfail;
      (split; [contradiction | intros _]);
      rewrite (networkFirstStrategy_eq net2), Hfail; world_simpl;
      [rewrite match_all_open_region |]; reflexivity.
Qed.

(** Network-first, when a region created before the dynamic one holds an
    entry for the request: the fresh response goes into the dynamic region
    when it is stored (its status is 200 and the cache takes it), the
    region keeping what it had otherwise, and in either case the older
    entry is what is served when the next fetch fails, since the lookup
    across the regions finds it first. *)
Theorem networkFirst_offline_serves_older_entry (request : Request) (w : World)
    (r c : Response) (pre post : CacheStorage) (n0 : string) (c0 : Cache) :
  caches w = (pre ++ (n0, c0) :: post)%list ->
  (forall n d, In (n, d) pre -> n <> DYNAMIC_CACHE /\ d !! url request = None) ->
  n0 <> DYNAMIC_CACHE ->
  c0 !! url request = Some c ->
  net1 (length (sent w)) (of_request request) = Some r ->
  let w1 := snd (networkFirstStrategy net1 request w) in
  net2 (length (sent w1)) (of_request request) = None ->
  (stores request r ->
   match_in DYNAMIC_CACHE (url request) (caches w1) = Some r) /\
  (~ stores request r ->
   match_in DYNAMIC_CACHE (url request) (caches w1)
   = match_in DYNAMIC_CACHE (url request) (caches w)) /\
  fst (networkFirstStrategy net2 request w1) = Fulfilled c.
Proof.
  intros Hcs Hpre Hn0 Hc0 Hnet w1. subst w1.
  rewrite (networkFirstStrategy_eq net1), Hnet. cbn [snd].
  assert (Hfirst : match_all (url request) (caches w) = Some c).
  { rewrite Hcs. apply (match_all_first _ _ pre post n0 c0 c eq_refl);
      [| exact Hc0].
    intros n d Hin. exact (proj2 (Hpre n d Hin)). }
  destruct (cacheable_cases request r) as [[-> Hs] | [-> Hs]].
  - intros Hfail. world_simpl. split; [| split]; [intros _ | contradiction |].
    + apply match_in_put_in_eq, region_open_region.
    + rewrite (networkFirstStrategy_eq net2), Hfail. world_simpl.
      rewrite Hcs, (match_all_put_in_hidden _ _ _ c); auto.
  - destruct (status r =? 200)%Z; intros Hfail; world_simpl;
      (split; [contradiction | split; [intros _ |]]);
      try apply match_in_open_region; try reflexivity;
      rewrite (networkFirstStrategy_eq net2), Hfail; world_simpl;
      [rewrite match_all_open_region |]; rewrite Hfirst; reflexivity.
Qed.

(** Stale-while-revalidate, with an entry in the dynamic region: this
    request gets the entry, and the next one gets what the revalidation
    left there, the fresh response when it was stored (its status is 200
    and the cache takes it) and the same entry when the fetch failed, the
    response came with another status or the cache refused it. *)
Theorem staleWhileRevalidate_next_request (request : Request) (w : World)
    (c : Response) :
  match_in DYNAMIC_CACHE (url request) (caches w) = Some c ->
  let first := replied (staleWhileRevalidateStrategy net1 request w) in
  let second := replied (staleWhileRevalidateStrategy net2 request (snd first)) in
  fst first = Fulfilled (Some c) /\
  (forall f : Response,
     net1 (length (sent w)) (of_request request) = Some f ->
     (stores request f -> fst second = Fulfilled (Some f)) /\
     (~ stores request f -> fst second = Fulfilled (Some c))) /\
  (net1 (length (sent w)) (of_request request) = None ->
   fst second = Fulfilled (Some c)).
Proof.
  intros Hc first second. subst first second.
  rewrite <- !respondWith_replied.
  rewrite (respondWith_StaleWhileRevalidate net1), Hc.
  destruct (net1 (length (sent w)) (of_request request)) as [f0 |];
    (split; [reflexivity |]); (split; [intros f [= <-] | intros [=]]);
    try discriminate;
    rewrite (respondWith_StaleWhileRevalidate net2); world_simpl.
  - destruct (cacheable_cases request f0) as [[-> Hs] | [-> Hs]];
      (split; [intros Hs' | intros Hs']); try contradiction.
    + rewrite match_in_put_in_eq by apply region_open_region.
      destruct (net2 _ _); reflexivity.
    + rewrite match_in_open_region, Hc. destruct (net2 _ _); reflexivity.
  - rewrite match_in_open_region, Hc. destruct (net2 _ _); reflexivity.
Qed.

End Sequences.

(** ** Activation *)

Section ActivationFacts.

(** The regions that the activation keeps. *)
Let current (n : string) : bool :=
  String.eqb n STATIC_CACHE || String.eqb n DYNAMIC_CACHE.

Let keep_current : CacheStorage -> CacheStorage :=
  List.filter (fun '(n, _) => current n).

(** One callback of sw.js:58-63 on the storage. *)
Let delete_stale (cs : CacheStorage) (n : string) : CacheStorage :=
  if negb (String.eqb n STATIC_CACHE) && negb (String.eqb n DYNAMIC_CACHE)
  then delete_region n cs else cs.

Lemma filter_filter_ext {A : Type} (f g h : A -> bool) (l : list A) :
  (forall a, In a l -> f a && g a = h a) ->
  List.filter f (List.filter g l) = List.filter h l.
Proof.
  induction l as [|a l IH]; intros Hfg; [reflexivity |].
  pose proof (Hfg a (or_introl eq_refl)) as Ha.
  assert (Hl : forall b, In b l -> f b && g b = h b)
    by (intros b Hb; apply Hfg; right; exact Hb).
  cbn [List.filter]. destruct (g a); cbn [List.filter].
  - rewrite andb_true_r in Ha. rewrite Ha, (IH Hl). reflexivity.
  - rewrite andb_false_r in Ha. rewrite <- Ha. exact (IH Hl).
Qed.

Lemma filter_all {A : Type} (f : A -> bool) (l : list A) :
  (forall a, In a l -> f a = true) -> List.filter f l = l.
Proof.
  induction l as [|a l IH]; intros Hf; [reflexivity |].
  cbn [List.filter]. rewrite (Hf a) by (left; reflexivity).
  f_equal. apply IH. intros b Hb. apply Hf. right. exact Hb.
Qed.

Lemma delete_stale_filter (cs : CacheStorage) (n0 : string) :
  delete_stale cs n0 =
  List.filter (fun '(n, _) => negb (negb (current n0) && String.eqb n n0)) cs.
Proof.
  unfold delete_stale, delete_region, current.
  destruct (String.eqb n0 STATIC_CACHE), (String.eqb n0 DYNAMIC_CACHE);
    cbn [negb andb orb];
    try (symmetry; apply filter_all; intros [n d] _; reflexivity).
  apply filter_ext. intros [n d]. reflexivity.
Qed.

Lemma delete_stale_fold (names : list string) (cs : CacheStorage) :
  fold_left delete_stale names cs =
  List.filter (fun '(n, _) => current n || negb (existsb (String.eqb n) names)) cs.
Proof.
  revert cs. induction names as [|n0 names IH]; intros cs.
  - cbn [fold_left existsb]. symmetry. apply filter_all.
    intros [n d] _. apply orb_true_r.
  - cbn [fold_left]. rewrite IH, delete_stale_filter.
    apply filter_filter_ext. intros [n d] _. cbn [existsb].
    destruct (String.eqb_spec n n0) as [-> | Hne].
    + destruct (current n0), (existsb (String.eqb n0) names); reflexivity.
    + rewrite andb_false_r. cbn [negb orb]. apply andb_true_r.
Qed.

(** What the activation leaves of the storage. *)
Lemma delete_stale_keys (cs : CacheStorage) :
  fold_left delete_stale (map fst cs) cs = keep_current cs.
Proof.
  rewrite delete_stale_fold. unfold keep_current.
  apply filter_ext_in. intros [n d] Hin.
  replace (existsb (String.eqb n) (map fst cs)) with true;
    [apply orb_false_r |].
  symmetry. apply existsb_exists. exists n. split; [| apply String.eqb_refl].
  apply in_map_iff. exists (n, d). split; [reflexivity | exact Hin].
Qed.

Lemma region_keep_current (n : string) (cs : CacheStorage) :
  region n (keep_current cs) = if current n then region n cs else None.
Proof.
  unfold keep_current. induction cs as [|[m d] cs IH]; cbn [List.filter region].
  - destruct (current n); reflexivity.
  - destruct (current m) eqn:Hm; cbn [region].
    + destruct (String.eqb_spec m n) as [-> | Hne]; [rewrite Hm; reflexivity | exact IH].
    + destruct (String.eqb_spec m n) as [-> | Hne]; [rewrite Hm in *; exact IH | exact IH].
Qed.

(** The callback of sw.js:58-63. *)
Let delete_if_stale (cacheName : string) : Async (option bool) :=
  if negb (String.eqb cacheName STATIC_CACHE)
     && negb (String.eqb cacheName DYNAMIC_CACHE)
  then deleted ← caches_delete cacheName; mret (Some deleted)
  else mret None.

Lemma delete_if_stale_run (n : string) (cs : CacheStorage) (se : list NetRequest)
    (co : list string) (po : list (string * Message)) (sk : bool) :
  exists r,
    delete_if_stale n (mkWorld cs se co po sk)
    = (Fulfilled r, mkWorld (delete_stale cs n) se co po sk).
Proof.
  unfold delete_if_stale, delete_stale.
  destruct (negb (String.eqb n STATIC_CACHE) && negb (String.eqb n DYNAMIC_CACHE));
    eexists; reflexivity.
Qed.

Lemma Promise_all_delete_if_stale (names : list string) (cs : CacheStorage)
    (se : list NetRequest) (co : list string) (po : list (string * Message))
    (sk : bool) :
  exists rs,
    Promise_all (map delete_if_stale names) (mkWorld cs se co po sk)
    = (Fulfilled rs, mkWorld (fold_left delete_stale names cs) se co po sk).
Proof.
  revert cs. induction names as [|n names IH]; intros cs.
  - exists []. reflexivity.
  - unfold Promise_all in *. cbn [map fold_left]. rewrite mapM_cons_eq.
    destruct (delete_if_stale_run n cs se co po sk) as [r ->].
    destruct (IH (delete_stale cs n)) as [rs ->].
    eexists. reflexivity.
Qed.

Lemma activate_eq (h : Host) :
  activate h =
  (Fulfilled tt,
   mkHost (set_caches keep_current (world h)) true (replies h)).
Proof.
  destruct h as [[cs se co po sk] cl rp].
  destruct (Promise_all_delete_if_stale (map fst cs) cs se co po sk) as [rs Hrs].
  rewrite delete_stale_keys in Hrs.
  unfold activate, in_world. cbn [world claimed replies].
  match goal with
  | |- context [fst ?X] =>
      assert (HX : X = (Fulfilled rs, mkWorld (keep_current cs) se co po sk))
        by exact Hrs
  end.
  rewrite HX. reflexivity.
Qed.

(** The activation deletes every region whose name is not one of the two
    current names and keeps the two current regions as they are, entry by
    entry; it sends nothing, posts nothing, always fulfils, and ends by
    claiming the clients. *)
Theorem activate_keeps_current_regions (h : Host) :
  let out := activate h in
  fst out = Fulfilled tt /\
  claimed (snd out) = true /\
  (forall n d,
     In (n, d) (caches (world (snd out))) <->
     In (n, d) (caches (world h)) /\ (n = STATIC_CACHE \/ n = DYNAMIC_CACHE)) /\
  (forall n u,
     n = STATIC_CACHE \/ n = DYNAMIC_CACHE ->
     match_in n u (caches (world (snd out))) = match_in n u (caches (world h))) /\
  (forall n u,
     n <> STATIC_CACHE -> n <> DYNAMIC_CACHE ->
     match_in n u (caches (world (snd out))) = None) /\
  sent (world (snd out)) = sent (world h) /\
  posted (world (snd out)) = posted (world h).
Proof.
  intros out. subst out. rewrite activate_eq. cbn [fst snd world claimed].
  world_simpl.
  assert (Hcur : forall n, current n = true <-> n = STATIC_CACHE \/ n = DYNAMIC_CACHE).
  { intros n. unfold current. rewrite orb_true_iff, !String.eqb_eq. tauto. }
  split; [reflexivity |]. split; [reflexivity |]. split; [| split; [| split]].
  - intros n d. unfold keep_current. rewrite filter_In, <- Hcur. tauto.
  - intros n u Hn. apply Hcur in Hn. unfold match_in.
    rewrite region_keep_current, Hn. reflexivity.
  - intros n u Hs Hd. unfold match_in. rewrite region_keep_current.
    destruct (current n) eqn:Hn; [| reflexivity].
    apply Hcur in Hn. tauto.
  - split; reflexivity.
Qed.

End ActivationFacts.

(** ** Caching the data of a monastery *)

Section BulkFacts.

Variable resolveURL : string -> string.
Variable net : nat -> NetRequest -> option Response.

Lemma cacheMonasteryData_run (id : string) (w : World) :
  exists w0 : World,
    caches w0 = open_region DYNAMIC_CACHE (caches w) /\
    skippedWaiting w0 = skippedWaiting w /\
    match addAll_result resolveURL net (length (sent w)) (monastery_urls id) with
    | Some rs =>
        cacheMonasteryData resolveURL net id w
        = (Fulfilled tt, set_caches (put_each DYNAMIC_CACHE rs) w0)
    | None => cacheMonasteryData resolveURL net id w = (Fulfilled tt, w0)
    end.
Proof.
  destruct (cache_addAll_run resolveURL net DYNAMIC_CACHE (monastery_urls id)
              (set_caches (open_region DYNAMIC_CACHE) w)) as (w0 & Hc & Hs & Hrun).
  exists w0. split; [exact Hc |]. split; [exact Hs |].
  revert Hrun. world_simpl. intros Hrun.
  unfold cacheMonasteryData, try_catch, mbind, Async_bind, caches_open.
  cbv beta iota zeta. fold (monastery_urls id).
  destruct (addAll_result resolveURL net (length (sent w)) (monastery_urls id))
    as [rs |].
  - rewrite Hrun. reflexivity.
  - destruct Hrun as [e Hrun]. rewrite Hrun. reflexivity.
Qed.

Lemma cacheMonasteryData_outcome (id : string) (w : World) :
  let out := cacheMonasteryData resolveURL net id w in
  fst out = Fulfilled tt /\
  (addAll_succeeds resolveURL net (length (sent w)) (monastery_urls id) ->
   forall (i : nat) (u : string) (r : Response),
     monastery_urls id !! i = Some u ->
     net (length (sent w) + i)
       (mkNetRequest "GET" (resolveURL u) [] EmptyString) = Some r ->
     match_in DYNAMIC_CACHE (resolveURL u) (caches (snd out)) = Some r) /\
  (~ addAll_succeeds resolveURL net (length (sent w)) (monastery_urls id) ->
   forall n u : string, match_in n u (caches (snd out)) = match_in n u (caches w)) /\
  (forall n u : string,
     n <> DYNAMIC_CACHE ->
     match_in n u (caches (snd out)) = match_in n u (caches w)) /\
  skippedWaiting (snd out) = skippedWaiting w.
Proof.
  intros out. subst out.
  destruct (cacheMonasteryData_run id w) as (w0 & Hc & Hs & Hrun).
  destruct (addAll_result resolveURL net (length (sent w)) (monastery_urls id))
    as [rs |] eqn:Hres; rewrite Hrun; world_simpl; rewrite Hc.
  - split; [reflexivity |]. split; [| split; [| split]].
    + intros _ i u r Hi Hr.
      apply (addAll_result_stored _ _ _ _ _ _ _ i u r Hres);
        [apply region_open_region | exact Hi | exact Hr].
    + intros Hno. exfalso. apply Hno, addAll_result_succeeds. eauto.
    + intros n u Hn. rewrite match_in_put_each_elsewhere by exact Hn.
      apply match_in_open_region.
    + exact Hs.
  - split; [reflexivity |]. split; [| split; [| split]].
    + intros Hall. apply addAll_result_succeeds in Hall.
      destruct Hall as [rs Hrs]. congruence.
    + intros _ n u. apply match_in_open_region.
    + intros n u _. apply match_in_open_region.
    + exact Hs.
Qed.

(** Caching the data of a monastery is all or nothing and never rejects.
    When the population goes through (the three URLs resolve to URLs of
    http or https, no two to the same, and each is answered with a response
    that is [ok], has not the status 206 and does not vary on [*]), each
    URL has the response that its fetch was answered with in the dynamic
    region afterwards; when it does not, no entry of the storage changes;
    either way the promise fulfils and no region but the dynamic one is
    touched. *)
Theorem cacheMonasteryData_all_or_nothing (id : string) (w : World) :
  let out := cacheMonasteryData resolveURL net id w in
  fst out = Fulfilled tt /\
  (addAll_succeeds resolveURL net (length (sent w)) (monastery_urls id) ->
   forall (i : nat) (u : string) (r : Response),
     monastery_urls id !! i = Some u ->
     net (length (sent w) + i)
       (mkNetRequest "GET" (resolveURL u) [] EmptyString) = Some r ->
     match_in DYNAMIC_CACHE (resolveURL u) (caches (snd out)) = Some r) /\
  (~ addAll_succeeds resolveURL net (length (sent w)) (monastery_urls id) ->
   forall n u : string, match_in n u (caches (snd out)) = match_in n u (caches w)) /\
  (forall n u : string,
     n <> DYNAMIC_CACHE ->
     match_in n u (caches (snd out)) = match_in n u (caches w)) /\
  skippedWaiting (snd out) = skippedWaiting w.
Proof. exact (cacheMonasteryData_outcome id w). Qed.

End BulkFacts.

(** ** From the life cycle to the requests *)

Section LifeCycle.

Variable origin_of : string -> string.
Variable location_origin : string.
Variable resolveURL : string -> string.
Variable net net2 : nat -> NetRequest -> option Response.

(** After an install whose population went through, and the activation
    that follows, the static region holds for a listed asset the response
    that the fetch of the asset was answered with, and a cache-first
    request for the asset is served from the storage, with no request sent
    and nothing changed, whatever the network would say: it is served the
    entry that the lookup across the regions finds, which is the installed
    response when the dynamic region had no entry for the asset. *)
Theorem install_activate_then_cacheFirst (h : Host) (i : nat) (asset : string)
    (r0 : Response) (request : Request) :
  addAll_succeeds resolveURL net (length (sent (world h))) STATIC_ASSETS ->
  STATIC_ASSETS !! i = Some asset ->
  net (length (sent (world h)) + i)
    (mkNetRequest "GET" (resolveURL asset) [] EmptyString) = Some r0 ->
  url request = resolveURL asset ->
  let installed := snd (in_world (install resolveURL net) h) in
  let w1 := world (snd (activate installed)) in
  match_in STATIC_CACHE (url request) (caches w1) = Some r0 /\
  exists r : Response,
    match_all (url request) (caches w1) = Some r /\
    cacheFirstStrategy net2 request w1 = (Fulfilled r, w1) /\
    ((forall n d, In (n, d) (caches (world h)) -> n = DYNAMIC_CACHE ->
        d !! url request = None) ->
     r = r0).
Proof.
  intros Hall Hi Hr0 Hurl installed w1. subst w1 installed.
  rewrite activate_eq. unfold in_world. cbn [snd world].
  destruct (install_run resolveURL net (world h)) as (w0 & Hc & _ & Hrun).
  apply (addAll_result_succeeds resolveURL net) in Hall.
  destruct Hall as [rs Hg].
  rewrite Hg in Hrun. rewrite Hrun. cbn [snd].
  set (cs2 := put_each STATIC_CACHE rs (caches w0)).
  set (w1 := set_caches _ _).
  assert (Hcaches : caches w1
                    = List.filter
                        (fun '(n, _) =>
                           String.eqb n STATIC_CACHE || String.eqb n DYNAMIC_CACHE)
                        cs2) by reflexivity.
  assert (HmS : match_in STATIC_CACHE (resolveURL asset) cs2 = Some r0).
  { apply (addAll_result_stored resolveURL net _ _ _ _ _ i asset r0 Hg);
      [rewrite Hc; apply region_open_region | exact Hi | exact Hr0]. }
  rewrite <- Hurl in HmS.
  assert (Hkept : match_in STATIC_CACHE (url request) (caches w1) = Some r0).
  { rewrite Hcaches. unfold match_in in *.
    pose proof (region_keep_current STATIC_CACHE cs2) as Hk. cbv beta in Hk.
    rewrite Hk. exact HmS. }
  split; [exact Hkept |].
  destruct (match_in_match_all _ _ _ _ Hkept) as [r Hr].
  exists r. split; [exact Hr |]. split.
  - rewrite cacheFirstStrategy_eq, Hr. reflexivity.
  - intros Hdyn.
    assert (Hall' : match_all (url request) (caches w1) = Some r0).
    { apply (match_all_only STATIC_CACHE); [exact Hkept |].
      intros n d Hnd Hn. rewrite Hcaches in Hnd.
      apply filter_In in Hnd. destruct Hnd as [Hnd Hcur].
      apply orb_true_iff in Hcur. rewrite !String.eqb_eq in Hcur.
      destruct Hcur as [-> | ->]; [contradiction |].
      pose proof (In_put_each_other _ _ _ _ _ Hnd Hn) as Hin0.
      rewrite Hc in Hin0. apply In_open_region in Hin0.
      destruct Hin0 as [Hin0 | [Hin0 _]]; [| discriminate Hin0].
      exact (Hdyn _ _ Hin0 eq_refl). }
    rewrite Hall' in Hr. injection Hr as <-. reflexivity.
Qed.

(** After the data of a monastery was cached, the population having gone
    through, each of its three URLs is answered from the storage when the
    network is down: by stale-while-revalidate with the copy of the dynamic
    region, which is the response that the fetch of the URL was answered
    with, by network-first and by cache-first with the entry that the
    lookup across the regions finds, cache-first sending no request. *)
Theorem cacheMonasteryData_then_offline (id : string) (w : World) (i : nat)
    (u : string) (r : Response) (request : Request) :
  addAll_succeeds resolveURL net (length (sent w)) (monastery_urls id) ->
  monastery_urls id !! i = Some u ->
  net (length (sent w) + i)
    (mkNetRequest "GET" (resolveURL u) [] EmptyString) = Some r ->
  url request = resolveURL u ->
  let w1 := snd (cacheMonasteryData resolveURL net id w) in
  net2 (length (sent w1)) (of_request request) = None ->
  fst (respondWith net2 request StaleWhileRevalidate w1) = Fulfilled (Some r) /\
  exists r' : Response,
    match_all (url request) (caches w1) = Some r' /\
    fst (networkFirstStrategy net2 request w1) = Fulfilled r' /\
    cacheFirstStrategy net2 request w1 = (Fulfilled r', w1).
Proof.
  intros Hall Hi Hr Hurl w1 Hfail.
  destruct (cacheMonasteryData_outcome resolveURL net id w)
    as (_ & Hstored & _).
  pose proof (Hstored Hall i u r Hi Hr) as Hm.
  fold w1 in Hm. rewrite <- Hurl in Hm.
  destruct (match_in_match_all _ _ _ _ Hm) as [r' Hr'].
  split; [| exists r'; split; [exact Hr' | split]].
  - rewrite respondWith_StaleWhileRevalidate, Hfail, Hm. reflexivity.
  - rewrite networkFirstStrategy_eq, Hfail, Hr'. reflexivity.
  - rewrite cacheFirstStrategy_eq, Hr'. reflexivity.
Qed.

(** The fetch listener on a GET request whose URL has a slash in it: the
    request is answered, always with a response, which is the entry that
    the lookup across the regions finds, else what the network answers,
    else the offline fallback of the request. *)
Theorem onfetch_slash_answers (request : Request) :
  method request = "GET" ->
  is_substring "/" (url request) ->
  exists p : Async (option Response),
    onfetch origin_of location_origin net request = Some p /\
    forall w : World,
      fst (p w) =
      Fulfilled
        (Some match match_all (url request) (caches w) with
              | Some c => c
              | None =>
                  match net (length (sent w)) (of_request request) with
                  | Some r => r
                  | None => getOfflineFallback request
                  end
              end).
Proof.
  intros Hm Hs.
  assert (Hroute : route origin_of location_origin request = Some CacheFirst).
  { assert (Ha : in_allowlist (url request)).
    { exists "/". split; [left; reflexivity | exact Hs]. }
    pose proof (route_Dispatch origin_of location_origin request) as Hd.
    inversion Hd; try reflexivity; contradiction. }
  unfold onfetch. rewrite Hroute. cbn [option_map].
  eexists. split; [reflexivity |]. intros w.
  unfold respondWith, mbind, Async_bind. rewrite cacheFirstStrategy_eq.
  destruct (match_all (url request) (caches w)) as [c |]; [reflexivity |].
  destruct (net (length (sent w)) (of_request request)) as [r |];
    reflexivity.
Qed.

(** The message listener ends with a TypeError exactly for a GET_VERSION
    message without a port, and then changes nothing; otherwise it
    completes. Whatever the message, it never claims clients, it posts at
    most one reply, the name of the version on the first port, and it
    leaves every region but the dynamic one as it is. *)
Theorem onmessage_edges (data : option MessageData) (ports : list nat) (h : Host) :
  let out := onmessage resolveURL net data ports h in
  (fst out = TypeError <->
   exists d, data = Some d /\ data_type d = Some "GET_VERSION" /\ ports = []) /\
  (fst out = TypeError -> snd out = h) /\
  claimed (snd out) = claimed h /\
  (replies (snd out) = replies h \/
   exists port rest,
     ports = port :: rest /\
     replies (snd out) = (replies h ++ [(port, "techkkim-enhanced-v1.0")])%list) /\
  (forall n u : string,
     n <> DYNAMIC_CACHE ->
     match_in n u (caches (world (snd out))) = match_in n u (caches (world h))).
Proof.
  intros out. subst out. unfold onmessage.
  destruct data as [[[t |] id] |]; cbn [data_type monasteryId].
  2, 3: (split; [split; [discriminate | intros (d & Hd & Ht & _); try discriminate;
                          injection Hd as <-; discriminate Ht] |];
         repeat split; try discriminate; auto).
  destruct (String.eqb_spec t "SKIP_WAITING") as [-> | H1].
  { split; [split; [discriminate | intros (d & [= <-] & [=] & _)] |].
    repeat split; try discriminate; auto. }
  destruct (String.eqb_spec t "GET_VERSION") as [-> | H2].
  { destruct ports as [| port rest].
    - split; [split; [intros _; eexists; repeat split | reflexivity] |].
      repeat split; auto.
    - split; [split; [discriminate | intros (d & _ & _ & [=])] |].
      repeat split; try discriminate; auto.
      right. exists port, rest. split; reflexivity. }
  destruct (String.eqb_spec t "CACHE_MONASTERY") as [-> | H3].
  { split; [split; [discriminate | intros (d & [= <-] & [=] & _)] |].
    split; [discriminate |]. split; [reflexivity |]. split; [left; reflexivity |].
    intros n u Hn. unfold in_world, detach. cbn [snd world].
    destruct (cacheMonasteryData_outcome resolveURL net id (world h))
      as (_ & _ & _ & Hother & _).
    apply Hother. exact Hn. }
  split; [split; [discriminate | intros (d & [= <-] & [= Ht] & _); contradiction] |].
  repeat split; try discriminate; auto.
Qed.

End LifeCycle.

(** ** Deferred sync, whatever the network does *)

Section MoreSyncFacts.

Variable resolveURL : string -> string.
Variable net : nat -> NetRequest -> option Response.
Variable Item : Type.
Variable JSON_stringify : Item -> string.

(** A sync never rejects, whatever its items and whatever the network
    does: the promise handed to the host always fulfils, so that a failed
    batch is never reported, and the cache storage is left as it was. *)
Theorem sync_always_fulfils (q : Queue) (items : list Item) (w : World) :
  let out := sync_from resolveURL net Item JSON_stringify q items w in
  fst out = Fulfilled tt /\ caches (snd out) = caches w.
Proof.
  intros out. subst out.
  destruct (post_each_keeps resolveURL net Item JSON_stringify (endpoint q) items w)
    as (_ & _ & Hc).
  cbv beta in Hc.
  destruct q.
  - rewrite syncMonasteryData_from_eq. cbv beta.
    destruct (for_of items _ w) as [[[] | e] w']; cbn [fst snd] in *;
      [| split; [reflexivity | exact Hc]].
    rewrite notify_all. split; [reflexivity | exact Hc].
  - rewrite syncChatMessages_from_eq. cbv beta.
    destruct (for_of items _ w) as [[[] | e] w']; cbn [fst snd] in *;
      split; try reflexivity; exact Hc.
Qed.

(** The sync as it is shipped, its two queues being stubs that are always
    empty: the visits' tag sends no request and tells every controlled
    client that 0 items were synced, the chat tag does nothing at all, and
    any other tag starts no work. *)
Theorem sync_as_shipped (tag : string) (w : World) :
  match onsync resolveURL net Item JSON_stringify tag with
  | Some sync =>
      (tag = "background-monastery-sync" /\
       sync w =
       (Fulfilled tt,
        mkWorld (caches w) (sent w) (controlled w)
          (posted w ++
           map (fun client => (client, mkMessage "SYNC_COMPLETE" 0)) (controlled w))
          (skippedWaiting w))) \/
      (tag = "background-chat-sync" /\ sync w = (Fulfilled tt, w))
  | None =>
      tag <> "background-monastery-sync" /\ tag <> "background-chat-sync"
  end.
Proof.
  unfold onsync.
  destruct (String.eqb_spec tag "background-monastery-sync") as [-> | H1].
  - left. split; [reflexivity |].
    change (syncMonasteryData resolveURL net Item JSON_stringify w)
      with (sync_from resolveURL net Item JSON_stringify Visits [] w).
    rewrite syncMonasteryData_from_eq. cbn [for_of].
    unfold mret, Async_ret. cbv beta iota. rewrite notify_all. reflexivity.
  - destruct (String.eqb_spec tag "background-chat-sync") as [-> | H2].
    + right. split; reflexivity.
    + split; assumption.
Qed.

End MoreSyncFacts.

(** ** Push and notification clicks *)

Section NotificationFacts.

Variable Value : Type.
Variable str : string -> Value.
Variable obj : list (string * Value) -> Value.
Variable own_props : Value -> list (string * Value).
Variable prop : Value -> string -> option Value.
Variable truthy : Value -> bool.
Variable ToString : Value -> option string.

Lemma spread_lookup (o : gmap string Value) (props : list (string * Value))
    (k : string) :
  spread Value o props !! k =
  match own_prop k props with
  | Some v => Some v
  | None => o !! k
  end.
Proof.
  unfold spread. revert o. induction props as [|[k' v] props IH]; intros o;
    cbn [fold_left own_prop]; [reflexivity |].
  rewrite IH. destruct (own_prop k props); [reflexivity |].
  destruct (String.eqb_spec k' k) as [-> | Hne].
  - apply lookup_insert_eq.
  - apply lookup_insert_ne. exact Hne.
Qed.

(** What a field of the notification is: the payload's own property of
    that name when the payload was parsed and has one, the default if not. *)
Let from_payload (data : option (option Value)) (k : string) (dflt : Value)
  : option Value :=
  match data with
  | Some (Some parsed) =>
      match own_prop k (own_props parsed) with
      | Some v => Some v
      | None => Some dflt
      end
  | _ => Some dflt
  end.

(** The push listener shows a notification whatever the event carries:
    each of title, body, icon, badge, tag and data is the payload's own
    property when there is one and the default otherwise, every field is
    the default without data or with data that is not JSON, and the two
    actions, view and dismiss, are the same for every payload. *)
Theorem onpush_fields (data : option (option Value)) :
  let n := onpush Value str obj own_props data in
  n_title Value n = from_payload data "title" (str "Techkkim Monastery Update") /\
  n_body Value n = from_payload data "body" (str "New monastery content available!") /\
  n_icon Value n = from_payload data "icon" (str "/icon-192.png") /\
  n_badge Value n = from_payload data "badge" (str "/icon-72.png") /\
  n_tag Value n = from_payload data "tag" (str "monastery-update") /\
  n_data Value n = from_payload data "data" (obj [("url", str "/")]) /\
  map action (n_actions Value n) = ["view"; "dismiss"].
Proof.
  intros n. subst n. unfold onpush, from_payload.
  assert (Hd : forall k,
             default_notificationData Value str obj !! k =
             own_prop k
               [ ("title", str "Techkkim Monastery Update");
                 ("body", str "New monastery content available!");
                 ("icon", str "/icon-192.png");
                 ("badge", str "/icon-72.png");
                 ("tag", str "monastery-update");
                 ("data", obj [("url", str "/")]) ]).
  { intros k. unfold default_notificationData. rewrite spread_lookup.
    destruct (own_prop k _); [reflexivity | apply lookup_empty]. }
  destruct data as [[parsed |] |];
    cbn [n_title n_body n_icon n_badge n_tag n_data n_actions];
    rewrite ?spread_lookup, ?Hd;
    repeat split;
    try reflexivity;
    match goal with
    | |- context [own_prop ?k (own_props parsed)] =>
        destruct (own_prop k (own_props parsed)); reflexivity
    end.
Qed.

(** The loop over the window clients: it focuses the first client whose
    URL contains the target and that can be focused, and does nothing
    else; when no client qualifies it opens a window on the target, if the
    platform can; it makes at most one call.  Without a client the target
    is not even converted; with one, a target that has no string ends the
    promise with a TypeError. *)
Theorem focus_or_open_first_match (u : Value) (openWindow : bool)
    (clientList : list WindowClient) :
  (forall target : string,
     ToString u = Some target ->
     (forall pre c post,
        clientList = (pre ++ c :: post)%list ->
        (forall c', In c' pre ->
           includes (client_url c') target && focusable c' = false) ->
        includes (client_url c) target && focusable c = true ->
        focus_or_open Value ToString u openWindow clientList
        = (Completed, [Focus Value c])) /\
     ((forall c, In c clientList ->
         includes (client_url c) target && focusable c = false) ->
      focus_or_open Value ToString u openWindow clientList
      = (Completed, if openWindow then [OpenWindow Value u] else []))) /\
  (ToString u = None -> clientList <> [] ->
   focus_or_open Value ToString u openWindow clientList = (TypeError, [])) /\
  focus_or_open Value ToString u openWindow [] =
    (Completed, if openWindow then [OpenWindow Value u] else []).
Proof.
  split; [| split; [| reflexivity]].
  - intros target Ht. split.
    + intros pre c post -> Hpre Hc. induction pre as [|c0 pre IH];
        cbn [app focus_or_open]; rewrite Ht.
      * rewrite Hc. reflexivity.
      * rewrite (Hpre c0) by (left; reflexivity).
        apply IH. intros c' Hin. apply Hpre. right. exact Hin.
    + intros Hnone. induction clientList as [|c0 l IH]; [reflexivity |].
      cbn [focus_or_open]. rewrite Ht, (Hnone c0) by (left; reflexivity).
      apply IH. intros c Hin. apply Hnone. right. exact Hin.
  - intros Hnone Hne. destruct clientList as [|c0 l]; [contradiction |].
    cbn [focus_or_open]. rewrite Hnone. reflexivity.
Qed.

(** A click on a notification always closes it.  For an action other than
    view (and other than a click on the body) nothing else happens.  For
    view or the body, with no truthy url in the data of the notification,
    the target is "/": the first window client is focused as soon as its
    URL has a slash in it, whatever page it shows and however many clients
    follow, and with no window client at all a window is opened on "/",
    if the platform can. *)
Theorem onnotificationclick_default_target (act : string) (data : option Value)
    (clientList : list WindowClient) (openWindow : bool) :
  let out :=
    onnotificationclick Value str prop truthy ToString act data clientList
      openWindow in
  (exists calls, snd out = Close Value :: calls) /\
  (act <> "view" -> act <> EmptyString -> out = (Completed, [Close Value])) /\
  (act = "view" \/ act = EmptyString ->
   ToString (str "/") = Some "/" ->
   (data = None \/
    exists d, data = Some d /\
      (prop d "url" = None \/
       exists v, prop d "url" = Some v /\ truthy v = false)) ->
   (forall c rest,
      clientList = c :: rest ->
      is_substring "/" (client_url c) ->
      focusable c = true ->
      out = (Completed, [Close Value; Focus Value c])) /\
   (clientList = [] ->
    out = (Completed,
           Close Value :: if openWindow then [OpenWindow Value (str "/")] else []))).
Proof.
  intros out. subst out. unfold onnotificationclick.
  split; [| split].
  - destruct (String.eqb act "view" || String.eqb act EmptyString).
    + destruct (focus_or_open _ _ _ _ _) as [c calls]. exists calls. reflexivity.
    + exists []. reflexivity.
  - intros Hv He.
    destruct (String.eqb_spec act "view"); [contradiction |].
    destruct (String.eqb_spec act EmptyString); [contradiction |]. reflexivity.
  - intros Hact Hslash Hdata.
    assert (Hcond : String.eqb act "view" || String.eqb act EmptyString = true).
    { destruct Hact as [-> | ->]; reflexivity. }
    rewrite Hcond.
    assert (Hu : match data with
                 | Some d =>
                     match prop d "url" with
                     | Some v => if truthy v then v else str "/"
                     | None => str "/"
                     end
                 | None => str "/"
                 end = str "/").
    { destruct Hdata as [-> | (d & -> & [-> | (v & -> & ->)])]; reflexivity. }
    rewrite Hu. split.
    + intros c rest -> Hc Hf. cbn [focus_or_open]. rewrite Hslash.
      apply includes_spec in Hc. rewrite Hc, Hf. reflexivity.
    + intros ->. reflexivity.
Qed.

End NotificationFacts.

(** * More of the worker on concrete inputs *)

Section MoreExamples.

Import Fixture Fixture2.

(** Stored once, served from then on, the network being down or not. *)
Lemma cacheFirst_serves_stored_copy :
  fst (cacheFirstStrategy offline (get lib EmptyString)
         (snd (cacheFirstStrategy (answering (page 200 "fresh"))
                 (get lib EmptyString) fresh)))
  = Fulfilled (page 200 "fresh").
Proof.
  destruct (cacheFirst_stores_then_serves (answering (page 200 "fresh")) offline
              (get lib EmptyString) fresh (page 200 "fresh")
              eq_refl eq_refl) as (_ & H & _).
  rewrite H; [reflexivity |]. apply cacheable_spec. reflexivity.
Defined.

(** Refused by the cache for its [Vary: *], the response is fetched anew by
    the next call, which gets the offline fallback when the network is
    down. *)
Example cacheFirst_refetches_refused_copy :
  fst (cacheFirstStrategy offline (get lib EmptyString)
         (snd (cacheFirstStrategy (answering (varying 200 "fresh"))
                 (get lib EmptyString) fresh)))
  = Fulfilled offline_unavailable.
Proof. vm_compute. reflexivity. Qed.

(** A 500 from the network goes to the caller; it is no offline fallback. *)
Lemma server_error_passed_through :
  fst (cacheFirstStrategy (answering (page 500 "boom")) (get lib "document") fresh)
  = Fulfilled (page 500 "boom") /\
  fst (networkFirstStrategy (answering (page 500 "boom")) (get lib "document") fresh)
  = Fulfilled (page 500 "boom").
Proof.
  destruct (network_response_passed_through (answering (page 500 "boom"))
              (get lib "document") fresh (page 500 "boom") eq_refl)
    as (Hcf & Hnf & _).
  split; [exact (Hcf eq_refl) | exact Hnf].
Defined.

Lemma networkFirst_serves_fresh_copy_offline :
  fst (networkFirstStrategy offline (get lib EmptyString)
         (snd (networkFirstStrategy (answering (page 200 "fresh"))
                 (get lib EmptyString) warm)))
  = Fulfilled (page 200 "fresh").
Proof.
  apply (networkFirst_stores_then_serves_offline (answering (page 200 "fresh"))
           offline (get lib EmptyString) warm (page 200 "fresh")).
  - intros n d [[= <- <-] | [[= <- <-] | []]] Hn;
      [apply lookup_empty | contradiction].
  - reflexivity.
  - reflexivity.
  - apply cacheable_spec. reflexivity.
Defined.

(** The static region holds an old copy: the fresh one is stored, the old
    one is served offline. *)
Lemma networkFirst_serves_old_copy_offline :
  let w1 := snd (networkFirstStrategy (answering (page 200 "fresh"))
                   (get lib EmptyString) stocked) in
  match_in DYNAMIC_CACHE lib (caches w1) = Some (page 200 "fresh") /\
  fst (networkFirstStrategy offline (get lib EmptyString) w1)
  = Fulfilled (page 200 "old").
Proof.
  destruct (networkFirst_offline_serves_older_entry (answering (page 200 "fresh"))
              offline (get lib EmptyString) stocked (page 200 "fresh")
              (page 200 "old")
              [] [(DYNAMIC_CACHE, ∅)] STATIC_CACHE {[ lib := page 200 "old" ]})
    as (Hstored & _ & Hserved).
  - reflexivity.
  - intros n d [].
  - discriminate.
  - vm_compute. reflexivity.
  - reflexivity.
  - reflexivity.
  - split; [| exact Hserved]. apply Hstored, cacheable_spec. reflexivity.
Defined.

Lemma staleWhileRevalidate_fresh_on_next_request :
  let first := replied (staleWhileRevalidateStrategy (answering (page 200 "fresh"))
                          (get lib EmptyString) warm) in
  fst first = Fulfilled (Some (page 200 "stale")) /\
  fst (replied (staleWhileRevalidateStrategy offline (get lib EmptyString)
                  (snd first)))
  = Fulfilled (Some (page 200 "fresh")).
Proof.
  assert (Hc : match_in DYNAMIC_CACHE (url (get lib EmptyString)) (caches warm)
               = Some (page 200 "stale")) by (vm_compute; reflexivity).
  destruct (staleWhileRevalidate_next_request (answering (page 200 "fresh")) offline
              (get lib EmptyString) warm (page 200 "stale") Hc)
    as (Hfirst & Hnext & _).
  split; [exact Hfirst |].
  apply (Hnext (page 200 "fresh") eq_refl). apply cacheable_spec. reflexivity.
Defined.

(** A fresh copy that varies on [*] is refused by the cache: the next
    request gets the stale copy again. *)
Example staleWhileRevalidate_stale_again :
  let first := replied (staleWhileRevalidateStrategy (answering (varying 200 "fresh"))
                          (get lib EmptyString) warm) in
  fst (replied (staleWhileRevalidateStrategy offline (get lib EmptyString)
                  (snd first)))
  = Fulfilled (Some (page 200 "stale")).
Proof. vm_compute. reflexivity. Qed.

Lemma installed_asset_served_offline :
  let installed :=
    snd (in_world (install resolveURL (answering (page 200 "asset"))) started) in
  let w1 := world (snd (activate installed)) in
  cacheFirstStrategy offline (get (resolveURL "/manifest.json") EmptyString) w1
  = (Fulfilled (page 200 "asset"), w1).
Proof.
  destruct (install_activate_then_cacheFirst resolveURL
              (answering (page 200 "asset")) offline started 2 "/manifest.json"
              (page 200 "asset")
              (get (resolveURL "/manifest.json") EmptyString))
    as (_ & r & _ & Hserved & Hr).
  - destruct static_assets_resolved as [Hhttp Hnd].
    split; [exact Hhttp |]. split; [exact Hnd |].
    intros i u _. exists (page 200 "asset").
    split; [reflexivity | apply addable_spec; reflexivity].
  - reflexivity.
  - reflexivity.
  - reflexivity.
  - rewrite (Hr (fun n d (H : In (n, d) []) => match H with end)) in Hserved.
    exact Hserved.
Defined.

Lemma monastery_data_served_offline :
  let w1 := snd (cacheMonasteryData resolveURL (answering (page 200 "monastery"))
                   "7" fresh) in
  let request := get (resolveURL "/api/monastery/7/images") EmptyString in
  fst (respondWith offline request StaleWhileRevalidate w1)
  = Fulfilled (Some (page 200 "monastery")).
Proof.
  destruct (cacheMonasteryData_then_offline resolveURL
              (answering (page 200 "monastery")) offline "7" fresh
              1 "/api/monastery/7/images" (page 200 "monastery")
              (get (resolveURL "/api/monastery/7/images") EmptyString))
    as (Hswr & _).
  - split; [| split].
    + intros u Hu. apply http_url_spec. revert u Hu. apply forallb_forall.
      vm_compute. reflexivity.
    + apply distinct_NoDup. vm_compute. reflexivity.
    + intros i u _. exists (page 200 "monastery").
      split; [reflexivity | apply addable_spec; reflexivity].
  - reflexivity.
  - reflexivity.
  - reflexivity.
  - reflexivity.
  - exact Hswr.
Defined.

(** The three URLs answered with a 206: nothing is cached, and the request
    for one of them, the network being down, is left without a response by
    stale-while-revalidate. *)
Example monastery_data_partial_content :
  let w1 := snd (cacheMonasteryData resolveURL (answering (page 206 "part"))
                   "7" fresh) in
  let request := get (resolveURL "/api/monastery/7/images") EmptyString in
  match_all (url request) (caches w1) = None /\
  fst (respondWith offline request StaleWhileRevalidate w1) = Fulfilled None.
Proof. vm_compute. split; reflexivity. Qed.

(** Offline and with nothing cached, the listener answers a cross-origin
    request with the 503 of the fallback. *)
Lemma onfetch_offline_unavailable :
  exists p : Async (option Response),
    onfetch origin_of origin offline (get "https://api.example.org/data" EmptyString)
    = Some p /\
    fst (p fresh) = Fulfilled (Some offline_unavailable).
Proof.
  destruct (onfetch_slash_answers origin_of origin offline
              (get "https://api.example.org/data" EmptyString))
    as (p & Hp & Hanswer).
  - reflexivity.
  - exists "https:", "/api.example.org/data". reflexivity.
  - exists p. split; [exact Hp |]. rewrite Hanswer. reflexivity.
Defined.

(** Two visits that the server refuses with a 500 are announced as synced. *)
Lemma sync_announces_refused_visits :
  posted (snd (sync_from resolveURL (answering (page 500 "refused")) string id
                 Visits ["one"; "two"] stocked))
  = [("client-1", mkMessage "SYNC_COMPLETE" 2)].
Proof.
  destruct (syncMonasteryData_notifies resolveURL (answering (page 500 "refused"))
              string id ["one"; "two"] stocked) as (_ & _ & H).
  - intros i x _. discriminate.
  - exact H.
Defined.

(** The activation drops the regions of the older version, and also a
    region that bears the name of the version. *)
Example activate_upgraded :
  map fst (caches (world (snd (activate upgraded)))) = [STATIC_CACHE; DYNAMIC_CACHE] /\
  match_in STATIC_CACHE lib (caches (world (snd (activate upgraded))))
  = Some (page 200 "v1.0").
Proof. vm_compute. split; reflexivity. Qed.

(** A GET_VERSION message is answered on its first port; without a port
    the listener throws. *)
Example onmessage_get_version :
  let data := Some (mkMessageData (Some "GET_VERSION") EmptyString) in
  onmessage resolveURL offline data [4; 9] started
  = (Completed, mkHost fresh false [(4, "techkkim-enhanced-v1.0")]) /\
  onmessage resolveURL offline data [] started = (TypeError, started).
Proof. split; reflexivity. Qed.

(** A payload with a title and an attempt at other actions. *)
Example onpush_payload :
  let n := onpush value VString VObject own_props
             (Some (Some (VObject [("title", VString "Puja at 6");
                                   ("actions", VString "none")]))) in
  n_title value n = Some (VString "Puja at 6") /\
  n_body value n = Some (VString "New monastery content available!") /\
  map action (n_actions value n) = ["view"; "dismiss"].
Proof. vm_compute. repeat split. Qed.

(** A click on the default notification focuses the first window, here
    one of another site, and does not open the application. *)
Example click_focuses_first_window :
  onnotificationclick value VString prop truthy ToString EmptyString
    (Some (VObject [("url", VString "/")]))
    [ mkWindowClient "https://elsewhere.example/inbox" true;
      mkWindowClient "https://techkkim.example/" true ] true
  = (Completed,
     [ Close value;
       Focus value (mkWindowClient "https://elsewhere.example/inbox" true) ]).
Proof. vm_compute. reflexivity. Qed.

End MoreExamples.
